(** * AI Influencer Factory: prompt composition, remote image client and
      the session state machine

    A shallow embedding of [services/geminiService.ts] (module
    [GeminiService]) and of the [App] component (module [App]), with the
    properties of the session they implement.

    Conventions.
    - A JavaScript [string] is a [string]; [string | null] and a possibly
      [undefined] string are [option string].
    - An [async] function is a computation in the monad [M]: it threads a
      state and either returns a value or throws.  The remote endpoint
      [ai.models.generateImages] is an oracle [ai] from request parameters to
      the completion of the promise; every request issued is appended to a
      log, so that [no request was issued] is a statement about the state.
    - [console.error] only writes to the console and is left out. *)

From Stdlib Require Import String Ascii List ZArith Bool Lia.
From Stdlib Require Import DecimalString DecimalZ.
Import ListNotations.

Open Scope list_scope.
Open Scope string_scope.

(** ** JavaScript values used by the program *)

Module Js.

(** Truthiness of a string: only the empty string is falsy. *)
Definition truthy (s : string) : bool :=
  match s with
  | EmptyString => false
  | String _ _ => true
  end.

(** Truthiness of [string | null]. *)
Definition truthy_opt (o : option string) : bool :=
  match o with
  | None => false
  | Some s => truthy s
  end.

(** What a [throw] carries: an [Error] object with its message, or any other
    value. *)
Inductive Thrown : Type :=
| ErrorObj (message : string)
| NonError (shown : string).

(** How a call ends. *)
Inductive Completion (A : Type) : Type :=
| Returned (a : A)
| Threw (e : Thrown).

Arguments Returned {A} a.
Arguments Threw {A} e.

Definition dquote : string := String (ascii_of_nat 34) EmptyString.
Definition newline : string := String (ascii_of_nat 10) EmptyString.
Definition comma : ascii := ascii_of_nat 44.

(** [s.split(sep)] for a one-character separator. *)
Fixpoint split (sep : ascii) (s : string) : list string :=
  match s with
  | EmptyString => [EmptyString]
  | String c rest =>
      if Ascii.eqb c sep then EmptyString :: split sep rest
      else match split sep rest with
           | [] => [String c EmptyString]
           | piece :: pieces => String c piece :: pieces
           end
  end.

(** [s.includes(t)]. *)
Fixpoint includes (s t : string) : bool :=
  String.prefix t s ||
  match s with
  | EmptyString => false
  | String _ rest => includes rest t
  end.

(** [t] occurs in [s]. *)
Definition Occurs (t s : string) : Prop :=
  exists before after, s = before ++ t ++ after.

End Js.

(** ** The state and exception monad of [async] code *)

Section Monad.

Import Js.

Context {S : Type}.

Definition M (A : Type) : Type := S -> Completion A * S.

Definition ret {A} (a : A) : M A := fun s => (Returned a, s).

Definition throw {A} (e : Thrown) : M A := fun s => (Threw e, s).

Definition bind {A B} (m : M A) (k : A -> M B) : M B :=
  fun s =>
    match m s with
    | (Returned a, s') => k a s'
    | (Threw e, s') => (Threw e, s')
    end.

(** [try { body } catch (e) { handler e }]. *)
Definition tryCatch {A} (body : M A) (handler : Thrown -> M A) : M A :=
  fun s =>
    match body s with
    | (Returned a, s') => (Returned a, s')
    | (Threw e, s') => handler e s'
    end.

(** [try { body } finally { final }]: [final] runs on both paths and the
  completion of [body] is kept unless [final] throws. *)
Definition tryFinally {A} (body : M A) (final : M unit) : M A :=
  fun s =>
    match body s with
    | (c, s') =>
        match final s' with
        | (Returned _, s'') => (c, s'')
        | (Threw e, s'') => (Threw e, s'')
        end
    end.

(** The current state. *)
Definition get : M S := fun s => (Returned s, s).

(** A state update that cannot throw. *)
Definition modify (f : S -> S) : M unit := fun s => (Returned tt, f s).

(** The state left by a computation. *)
Definition exec {A} (m : M A) (s : S) : S := snd (m s).

(** The completion of a computation. *)
Definition eval {A} (m : M A) (s : S) : Completion A := fst (m s).

End Monad.

Arguments M S A : clear implicits.

Declare Scope js_scope.
Delimit Scope js_scope with js.
Notation "x <- m ;; k" := (bind m (fun x => k))
  (at level 61, m at next level, right associativity) : js_scope.
Notation "m ;; k" := (bind m (fun _ => k))
  (at level 61, right associativity) : js_scope.
Open Scope js_scope.

(** ** [services/geminiService.ts] *)

Module GeminiService.

Import Js.

Inductive AspectRatio : Type :=
| Ratio_1_1 | Ratio_4_3 | Ratio_3_4 | Ratio_16_9 | Ratio_9_16.

(** *** The provider's request and response

    The SDK that declares these types is not part of the repository.  They
    are taken with the shape the client code builds and reads: a request has
    a model id, a prompt, an optional reference image and mask (the casts
    [as any] of the editing calls) and a config; a response has an optional
    array of generated images, each carrying its bytes as a string. *)

Module ImageInput.
Record t : Type := mk { imageBytes : option string; mimeType : string }.
End ImageInput.

Module Config.
Record t : Type := mk {
    numberOfImages : nat;
    outputMimeType : string;
    aspectRatio : option AspectRatio }.
End Config.

Module Params.
Record t : Type := mk {
    model : string;
    prompt : string;
    image : option ImageInput.t;
    mask : option ImageInput.t;
    config : Config.t }.
End Params.

Module Image.
Record t : Type := mk { imageBytes : string }.
End Image.

Module GeneratedImage.
Record t : Type := mk { image : Image.t }.
End GeneratedImage.

Module Response.
Record t : Type := mk { generatedImages : option (list GeneratedImage.t) }.
End Response.

(** *** Options of the four exported functions *)

Module GenerateImageOptions.
Record t : Type := mk {
    prompt : string;
    aspectRatio : AspectRatio;
    style : string;
    age : string;
    dominantColor : string;
    ethnicity : string }.
End GenerateImageOptions.

Module InpaintImageOptions.
Record t : Type := mk {
    prompt : string;
    image : option string;
    mask : option string }.
End InpaintImageOptions.

Module GenerateConsistentCharacterOptions.
Record t : Type := mk {
    prompt : string;
    image : option string;
    aspectRatio : AspectRatio }.
End GenerateConsistentCharacterOptions.

Module AddTextToImageOptions.
Record t : Type := mk {
    prompt : string;
    image : option string;
    language : string }.
End AddTextToImageOptions.

(** The network: the requests issued so far, oldest first. *)
Definition Network : Type := list Params.t.

(** [`data:image/jpeg;base64,${base64ImageBytes}`] *)
Definition dataUri (base64ImageBytes : string) : string :=
  "data:image/jpeg;base64," ++ base64ImageBytes.

(** The local variable [fullPrompt] of [generateInfluencerImage] when the
    request is built: the initial assignment and the appends that follow it,
    the two guarded ones included. *)
Definition fullPrompt (options : GenerateImageOptions.t) : string :=
  let '(GenerateImageOptions.mk prompt _ style age dominantColor ethnicity) :=
    options in
  let fullPrompt :=
    "Create a " ++ style ++ ", ultra-realistic, full-body portrait of a "
      ++ ethnicity ++ " AI influencer." in
  let fullPrompt :=
    fullPrompt ++ " The style should be high-resolution, resembling a professional photograph." in
  let fullPrompt := fullPrompt ++ " Key details: " ++ prompt ++ "." in
  let fullPrompt :=
    if truthy age
    then fullPrompt ++ " The influencer should appear to be around " ++ age ++ " years old."
    else fullPrompt in
  let fullPrompt :=
    if truthy dominantColor
    then fullPrompt ++ " The image's color palette should be dominated by shades of "
           ++ dominantColor ++ "."
    else fullPrompt in
  fullPrompt ++ " Focus on realistic skin textures, intricate details, natural lighting, and a compelling pose.".

(** [fullPrompt] of [generateConsistentCharacter]. *)
Definition scenePrompt (prompt : string) : string :=
  "Using the provided image as a reference for the character's face and appearance, create a new scene. The character must remain consistent. New scene description: "
    ++ dquote ++ prompt ++ dquote.

(** [fullPrompt] of [addTextToImage]; the template spans three lines. *)
Definition textPrompt (prompt language : string) : string :=
  "Seamlessly and realistically integrate the following text onto the image, matching the existing art style, lighting, perspective, and textures. The text should appear as a natural part of the scene, not just an overlay."
    ++ newline ++ "Text to add: " ++ dquote ++ prompt ++ dquote
    ++ newline ++ "The text is in " ++ language ++ " language.".

(** The parameters each function passes to [generateImages]. *)

Definition generateRequest (options : GenerateImageOptions.t) : Params.t :=
  let fullPrompt := fullPrompt options in
  Params.mk "imagen-3.0-generate-002" fullPrompt None None
    (Config.mk 1 "image/jpeg"
       (Some (GenerateImageOptions.aspectRatio options))).

Definition inpaintRequest (options : InpaintImageOptions.t) : Params.t :=
  let '(InpaintImageOptions.mk prompt image mask) := options in
  Params.mk "imagen-3.0-generate-002" prompt
    (Some (ImageInput.mk image "image/jpeg"))
    (Some (ImageInput.mk mask "image/png"))
    (Config.mk 1 "image/jpeg" None).

Definition sceneRequest (options : GenerateConsistentCharacterOptions.t)
  : Params.t :=
  let '(GenerateConsistentCharacterOptions.mk prompt image aspectRatio) :=
    options in
  let fullPrompt := scenePrompt prompt in
  Params.mk "imagen-3.0-generate-002" fullPrompt
    (Some (ImageInput.mk image "image/jpeg")) None
    (Config.mk 1 "image/jpeg" (Some aspectRatio)).

Definition textRequest (options : AddTextToImageOptions.t) : Params.t :=
  let '(AddTextToImageOptions.mk prompt image language) := options in
  let fullPrompt := textPrompt prompt language in
  Params.mk "imagen-3.0-generate-002" fullPrompt
    (Some (ImageInput.mk image "image/jpeg")) None
    (Config.mk 1 "image/jpeg" None).

Section Client.

(** The remote endpoint: how the promise of a request settles. *)
Variable ai : Params.t -> Completion Response.t.

(** [await ai.models.generateImages(params)] *)
Definition generateImages (params : Params.t) : M Network Response.t :=
  fun net => (ai params, (net ++ [params])%list).

(** The image taken from a response: the first one, or the given failure
    when [generatedImages] is missing or empty. *)
Definition firstImage (failure : string) (response : Response.t)
  : M Network string :=
  match Response.generatedImages response with
  | None | Some [] => throw (ErrorObj failure)
  | Some (first :: _) =>
      let base64ImageBytes := Image.imageBytes (GeneratedImage.image first) in
      ret (dataUri base64ImageBytes)
  end.

(** The [catch] block, of the same shape in the four functions. *)
Definition rethrow (prefix unknown : string) (error : Thrown)
  : M Network string :=
  match error with
  | ErrorObj message => throw (ErrorObj (prefix ++ message))
  | NonError _ => throw (ErrorObj unknown)
  end.

Definition generateInfluencerImage (options : GenerateImageOptions.t)
  : M Network string :=
  tryCatch
    (response <- generateImages (generateRequest options) ;;
     firstImage "Image generation failed, no images were returned." response)
    (rethrow "Failed to generate influencer image: "
       "An unknown error occurred during image generation.").

Definition inpaintImage (options : InpaintImageOptions.t)
  : M Network string :=
  tryCatch
    (response <- generateImages (inpaintRequest options) ;;
     firstImage "Inpainting failed, no images were returned." response)
    (rethrow "Failed to inpaint image: "
       "An unknown error occurred during image inpainting.").

Definition generateConsistentCharacter
  (options : GenerateConsistentCharacterOptions.t) : M Network string :=
  tryCatch
    (response <- generateImages (sceneRequest options) ;;
     firstImage
       "Consistent character generation failed, no images were returned."
       response)
    (rethrow "Failed to generate consistent character: "
       "An unknown error occurred during consistent character generation.").

Definition addTextToImage (options : AddTextToImageOptions.t)
  : M Network string :=
  tryCatch
    (response <- generateImages (textRequest options) ;;
     firstImage "Adding text failed, no images were returned." response)
    (rethrow "Failed to add text to image: "
       "An unknown error occurred while adding text to the image.").

End Client.

End GeminiService.

(** ** The [App] component *)

Module App.

Import Js GeminiService.

Inductive AppMode : Type := generate | edit.
Inductive EditModeTab : Type := inpaint | newScene | addText.

(** [dataUrl.split(',')[1]]: the piece after the first comma, [undefined]
    when there is no comma. *)
Definition getBase64FromDataUrl (dataUrl : string) : option string :=
  nth_error (split comma dataUrl) 1.

(** *** State

    The [useState] cells, grouped as the component groups them, and the
    three refs. *)

Record Core : Type := mkCore {
  mode : AppMode;
  isLoading : bool;
  error : option string;
  imageUrl : option string }.

Record GenerationControls : Type := mkGeneration {
  prompt : string;
  aspectRatio : AspectRatio;
  style : string;
  age : string;
  dominantColor : string;
  ethnicity : string }.

Record EditingControls : Type := mkEditing {
  editModeTab : EditModeTab;
  inpaintPrompt : string;
  newScenePrompt : string;
  textContent : string;
  textLanguage : string;
  brushSize : Z;
  isDrawing : bool }.

(** A canvas element: its identity, its bitmap size and, for every pixel,
    whether it carries ink (the only stroke style used is opaque white).
    Only the pixels inside the bitmap are part of the raster. *)
Record HTMLCanvasElement : Type := mkCanvas {
  canvasId : nat;
  width : Z;
  height : Z;
  pixels : Z -> Z -> bool }.

(** A 2D context: the element it draws on, the drawing state the program
    sets, and the current path as its list of subpaths. *)
Record CanvasRenderingContext2D : Type := mkContext {
  canvas : nat;
  lineCap : string;
  strokeStyle : string;
  lineWidth : Z;
  path : list (list (Z * Z)) }.

(** What the program reads of the displayed image element. *)
Record HTMLImageElement : Type := mkImage {
  clientWidth : Z;
  clientHeight : Z;
  complete : bool;
  naturalHeight : Z }.

(** The component's state together with what it acts on: the refs, the
    requests sent to the provider and the number of canvas elements created
    so far (the identity of the next one). *)
Record World : Type := mkWorld {
  core : Core;
  generation : GenerationControls;
  editing : EditingControls;
  canvasRef : option HTMLCanvasElement;
  imageRef : option HTMLImageElement;
  contextRef : option CanvasRenderingContext2D;
  network : Network;
  elements : nat }.

Definition withCore (f : Core -> Core) (w : World) : World :=
  mkWorld (f (core w)) (generation w) (editing w) (canvasRef w) (imageRef w)
    (contextRef w) (network w) (elements w).

Definition withGeneration (f : GenerationControls -> GenerationControls)
  (w : World) : World :=
  mkWorld (core w) (f (generation w)) (editing w) (canvasRef w) (imageRef w)
    (contextRef w) (network w) (elements w).

Definition withEditing (f : EditingControls -> EditingControls) (w : World)
  : World :=
  mkWorld (core w) (generation w) (f (editing w)) (canvasRef w) (imageRef w)
    (contextRef w) (network w) (elements w).

Definition withCanvasRef (c : option HTMLCanvasElement) (w : World) : World :=
  mkWorld (core w) (generation w) (editing w) c (imageRef w) (contextRef w)
    (network w) (elements w).

Definition withImageRef (i : option HTMLImageElement) (w : World) : World :=
  mkWorld (core w) (generation w) (editing w) (canvasRef w) i (contextRef w)
    (network w) (elements w).

Definition withContextRef (x : option CanvasRenderingContext2D) (w : World)
  : World :=
  mkWorld (core w) (generation w) (editing w) (canvasRef w) (imageRef w) x
    (network w) (elements w).

Definition withNetwork (n : Network) (w : World) : World :=
  mkWorld (core w) (generation w) (editing w) (canvasRef w) (imageRef w)
    (contextRef w) n (elements w).

(** The state setters returned by [useState]. *)

Definition setMode (v : AppMode) : M World unit :=
  modify (withCore (fun c => mkCore v (isLoading c) (error c) (imageUrl c))).

Definition setIsLoading (v : bool) : M World unit :=
  modify (withCore (fun c => mkCore (mode c) v (error c) (imageUrl c))).

Definition setError (v : option string) : M World unit :=
  modify (withCore (fun c => mkCore (mode c) (isLoading c) v (imageUrl c))).

Definition setImageUrl (v : option string) : M World unit :=
  modify (withCore (fun c => mkCore (mode c) (isLoading c) (error c) v)).

Definition setPrompt (v : string) : M World unit :=
  modify (withGeneration (fun g =>
    mkGeneration v (aspectRatio g) (style g) (age g) (dominantColor g)
      (ethnicity g))).

Definition setAspectRatio (v : AspectRatio) : M World unit :=
  modify (withGeneration (fun g =>
    mkGeneration (prompt g) v (style g) (age g) (dominantColor g)
      (ethnicity g))).

Definition setStyle (v : string) : M World unit :=
  modify (withGeneration (fun g =>
    mkGeneration (prompt g) (aspectRatio g) v (age g) (dominantColor g)
      (ethnicity g))).

Definition setAge (v : string) : M World unit :=
  modify (withGeneration (fun g =>
    mkGeneration (prompt g) (aspectRatio g) (style g) v (dominantColor g)
      (ethnicity g))).

Definition setDominantColor (v : string) : M World unit :=
  modify (withGeneration (fun g =>
    mkGeneration (prompt g) (aspectRatio g) (style g) (age g) v
      (ethnicity g))).

Definition setEthnicity (v : string) : M World unit :=
  modify (withGeneration (fun g =>
    mkGeneration (prompt g) (aspectRatio g) (style g) (age g)
      (dominantColor g) v)).

Definition setEditModeTab (v : EditModeTab) : M World unit :=
  modify (withEditing (fun e =>
    mkEditing v (inpaintPrompt e) (newScenePrompt e) (textContent e)
      (textLanguage e) (brushSize e) (isDrawing e))).

Definition setInpaintPrompt (v : string) : M World unit :=
  modify (withEditing (fun e =>
    mkEditing (editModeTab e) v (newScenePrompt e) (textContent e)
      (textLanguage e) (brushSize e) (isDrawing e))).

Definition setNewScenePrompt (v : string) : M World unit :=
  modify (withEditing (fun e =>
    mkEditing (editModeTab e) (inpaintPrompt e) v (textContent e)
      (textLanguage e) (brushSize e) (isDrawing e))).

Definition setTextContent (v : string) : M World unit :=
  modify (withEditing (fun e =>
    mkEditing (editModeTab e) (inpaintPrompt e) (newScenePrompt e) v
      (textLanguage e) (brushSize e) (isDrawing e))).

Definition setTextLanguage (v : string) : M World unit :=
  modify (withEditing (fun e =>
    mkEditing (editModeTab e) (inpaintPrompt e) (newScenePrompt e)
      (textContent e) v (brushSize e) (isDrawing e))).

Definition setBrushSize (v : Z) : M World unit :=
  modify (withEditing (fun e =>
    mkEditing (editModeTab e) (inpaintPrompt e) (newScenePrompt e)
      (textContent e) (textLanguage e) v (isDrawing e))).

Definition setIsDrawing (v : bool) : M World unit :=
  modify (withEditing (fun e =>
    mkEditing (editModeTab e) (inpaintPrompt e) (newScenePrompt e)
      (textContent e) (textLanguage e) (brushSize e) v)).

(** The state of the component when it is first rendered. *)
Definition initialWorld : World :=
  mkWorld
    (mkCore generate false None None)
    (mkGeneration
       "A stylish female influencer with vibrant pink hair, standing in a futuristic neon-lit city square at night."
       Ratio_1_1 "Photorealistic" "25" "Neon Pink" "Caucasian")
    (mkEditing inpaint "" "" "" "English" 40 false)
    None None None [] 0.

(** *** The canvas and its 2D context *)

Definition blank : Z -> Z -> bool := fun _ _ => false.

(** Assigning [canvas.width] or [canvas.height] resets the bitmap. *)
Definition setWidth (v : Z) (c : HTMLCanvasElement) : HTMLCanvasElement :=
  mkCanvas (canvasId c) v (height c) blank.

Definition setHeight (v : Z) (c : HTMLCanvasElement) : HTMLCanvasElement :=
  mkCanvas (canvasId c) (width c) v blank.

Definition inRect (x y w h px py : Z) : bool :=
  (x <=? px)%Z && (px <? x + w)%Z && (y <=? py)%Z && (py <? y + h)%Z.

(** [clearRect(x, y, w, h)] makes the pixels of the rectangle transparent. *)
Definition clearRect (x y w h : Z) (c : HTMLCanvasElement)
  : HTMLCanvasElement :=
  mkCanvas (canvasId c) (width c) (height c)
    (fun px py => if inRect x y w h px py then false else pixels c px py).

Definition beginPath (x : CanvasRenderingContext2D)
  : CanvasRenderingContext2D :=
  mkContext (canvas x) (lineCap x) (strokeStyle x) (lineWidth x) [].

Definition moveTo (px py : Z) (x : CanvasRenderingContext2D)
  : CanvasRenderingContext2D :=
  mkContext (canvas x) (lineCap x) (strokeStyle x) (lineWidth x)
    (path x ++ [[(px, py)]])%list.

(** [lineTo] extends the last subpath, and starts one when there is none. *)
Definition lineTo (px py : Z) (x : CanvasRenderingContext2D)
  : CanvasRenderingContext2D :=
  mkContext (canvas x) (lineCap x) (strokeStyle x) (lineWidth x)
    (match rev (path x) with
     | [] => [[(px, py)]]
     | last :: before => rev before ++ [last ++ [(px, py)]]
     end)%list.

(** [closePath] joins the last subpath back to its first point and starts a
    subpath there. *)
Definition closePath (x : CanvasRenderingContext2D)
  : CanvasRenderingContext2D :=
  mkContext (canvas x) (lineCap x) (strokeStyle x) (lineWidth x)
    (match rev (path x) with
     | (start :: _ :: _) as last :: before =>
         rev before ++ [last ++ [start]; [start]]
     | _ => path x
     end)%list.

(** The element a context method acts on is the context's own canvas.  When
    that is the element held by [canvasRef] the mask changes; otherwise the
    drawing lands on an element the component no longer refers to. *)
Definition onCanvasOf (x : CanvasRenderingContext2D)
  (f : HTMLCanvasElement -> HTMLCanvasElement) (w : World) : World :=
  match canvasRef w with
  | Some c =>
      if Nat.eqb (canvasId c) (canvas x) then withCanvasRef (Some (f c)) w
      else w
  | None => w
  end.

Section Component.

(** The remote endpoint. *)
Variable ai : Params.t -> Completion Response.t.

(** [canvas.toDataURL('image/png')], the browser's encoder.  It is taken to
    return: the canvas only ever holds strokes, so it is never tainted. *)
Variable toDataURL : HTMLCanvasElement -> string.

(** The browser's rasteriser: whether stroking the context's path with its
    line width and cap puts ink on a pixel. *)
Variable strokeCovers : CanvasRenderingContext2D -> Z -> Z -> bool.

Definition stroke (x : CanvasRenderingContext2D) (c : HTMLCanvasElement)
  : HTMLCanvasElement :=
  mkCanvas (canvasId c) (width c) (height c)
    (fun px py => pixels c px py || strokeCovers x px py).

(** [setCanvasDimensions] of the sizing effect, for the element held by
    [canvasRef]: it is called by the effect itself, by [image.onload] and by
    the window's [resize] listener. *)
Definition setCanvasDimensions : M World unit :=
  w <- get ;;
  match imageRef w, canvasRef w with
  | Some image, Some canvas =>
      let canvas :=
        setHeight (clientHeight image) (setWidth (clientWidth image) canvas) in
      modify (withCanvasRef (Some canvas)) ;;
      let context :=
        mkContext (canvasId canvas) "round" "white" (brushSize (editing w)) []
      in
      modify (withContextRef (Some context))
  | _, _ => ret tt
  end.

(** The body of the effect that runs when [mode], [brushSize] or [imageUrl]
    changed.  When the image is not loaded yet the call is left to
    [image.onload]. *)
Definition canvasEffect : M World unit :=
  w <- get ;;
  match mode (core w), canvasRef w, imageRef w with
  | edit, Some _, Some image =>
      if complete image && negb (naturalHeight image =? 0)%Z
      then setCanvasDimensions
      else ret tt
  | _, _, _ => ret tt
  end.

(** *** Drawing handlers *)

Definition startDrawing (offsetX offsetY : Z) : M World unit :=
  w <- get ;;
  match contextRef w with
  | None => ret tt
  | Some context =>
      modify (withContextRef
                (Some (moveTo offsetX offsetY (beginPath context)))) ;;
      setIsDrawing true
  end.

Definition stopDrawing : M World unit :=
  w <- get ;;
  match contextRef w with
  | None => ret tt
  | Some context =>
      modify (withContextRef (Some (closePath context))) ;;
      setIsDrawing false
  end.

Definition draw (offsetX offsetY : Z) : M World unit :=
  w <- get ;;
  match isDrawing (editing w), contextRef w with
  | true, Some context =>
      let context := lineTo offsetX offsetY context in
      modify (withContextRef (Some context)) ;;
      modify (onCanvasOf context (stroke context))
  | _, _ => ret tt
  end.

Definition clearCanvas : M World unit :=
  w <- get ;;
  match canvasRef w, contextRef w with
  | Some canvas, Some context =>
      modify (onCanvasOf context
                (clearRect 0 0 (width canvas) (height canvas)))
  | _, _ => ret tt
  end.

(** *** API call handlers

    A handler is the closure of the latest render: the state it reads is the
    state in which it is invoked.  It runs to completion as one step, the
    [await] included. *)

(** [await] of a call of the service, which acts on the network only. *)
Definition await {A} (call : M Network A) : M World A :=
  fun w =>
    match call (network w) with
    | (c, net) => (c, withNetwork net w)
    end.

(** [e instanceof Error ? e.message : 'An unexpected error occurred.'] *)
Definition errorMessageOf (e : Thrown) : string :=
  match e with
  | ErrorObj message => message
  | NonError _ => "An unexpected error occurred."
  end.

Definition handleGenerate : M World unit :=
  w <- get ;;
  setIsLoading true ;;
  setError None ;;
  tryFinally
    (tryCatch
       (resultUrl <- await (generateInfluencerImage ai
          (GenerateImageOptions.mk (prompt (generation w))
             (aspectRatio (generation w)) (style (generation w))
             (age (generation w)) (dominantColor (generation w))
             (ethnicity (generation w)))) ;;
        setImageUrl (Some resultUrl) ;;
        setMode edit)
       (fun e =>
          let errorMessage := errorMessageOf e in
          setError (Some errorMessage)))
    (setIsLoading false).

Definition handleApplyInpaint : M World unit :=
  w <- get ;;
  match imageUrl (core w), canvasRef w with
  | Some url, Some current =>
      if negb (truthy url) then ret tt else
      setIsLoading true ;;
      setError None ;;
      tryFinally
        (tryCatch
           (let maskDataUrl := toDataURL current in
            let maskBase64 := getBase64FromDataUrl maskDataUrl in
            let imageBase64 := getBase64FromDataUrl url in
            resultUrl <- await (inpaintImage ai
              (InpaintImageOptions.mk (inpaintPrompt (editing w))
                 imageBase64 maskBase64)) ;;
            setImageUrl (Some resultUrl) ;;
            clearCanvas ;;
            setInpaintPrompt "")
           (fun e =>
              let errorMessage := errorMessageOf e in
              setError (Some errorMessage)))
        (setIsLoading false)
  | _, _ => ret tt
  end.

Definition handleGenerateNewScene : M World unit :=
  w <- get ;;
  match imageUrl (core w) with
  | Some url =>
      if negb (truthy url) then ret tt else
      setIsLoading true ;;
      setError None ;;
      tryFinally
        (tryCatch
           (let imageBase64 := getBase64FromDataUrl url in
            resultUrl <- await (generateConsistentCharacter ai
              (GenerateConsistentCharacterOptions.mk
                 (newScenePrompt (editing w)) imageBase64
                 (aspectRatio (generation w)))) ;;
            setImageUrl (Some resultUrl) ;;
            setNewScenePrompt "")
           (fun e =>
              let errorMessage := errorMessageOf e in
              setError (Some errorMessage)))
        (setIsLoading false)
  | None => ret tt
  end.

Definition handleApplyText : M World unit :=
  w <- get ;;
  match imageUrl (core w) with
  | Some url =>
      if negb (truthy url) || negb (truthy (textContent (editing w)))
      then ret tt else
      setIsLoading true ;;
      setError None ;;
      tryFinally
        (tryCatch
           (let imageBase64 := getBase64FromDataUrl url in
            resultUrl <- await (addTextToImage ai
              (AddTextToImageOptions.mk (textContent (editing w))
                 imageBase64 (textLanguage (editing w)))) ;;
            setImageUrl (Some resultUrl) ;;
            setTextContent "")
           (fun e =>
              let errorMessage := errorMessageOf e in
              setError (Some errorMessage)))
        (setIsLoading false)
  | None => ret tt
  end.

(** *** UI action handlers *)

Definition handleStartOver : M World unit :=
  setMode generate ;;
  setImageUrl None ;;
  setError None ;;
  setIsLoading false ;;
  setInpaintPrompt "" ;;
  setNewScenePrompt "" ;;
  setTextContent "" ;;
  setTextLanguage "English" ;;
  setEditModeTab inpaint.

End Component.

(** *** Events

    What can happen to the component: what the user does with the controls
    on screen, and what the browser and React do to the refs. *)

Inductive Event : Type :=
| ChangePrompt (v : string)
| ChangeStyle (v : string)
| ChangeAspectRatio (v : AspectRatio)
| ChangeAge (v : string)
| ChangeDominantColor (v : string)
| ChangeEthnicity (v : string)
| ClickGenerate
| ClickTab (tab : EditModeTab)
| ChangeInpaintPrompt (v : string)
| ChangeBrushSize (v : Z)
| ClickApplyEdit
| ClickClearMask
| ChangeNewScenePrompt (v : string)
| ClickGenerateNewScene
| ChangeTextContent (v : string)
| ChangeTextLanguage (v : string)
| ClickAddText
| ClickDownload
| ClickStartOver
| MouseDown (offsetX offsetY : Z)
| MouseUp
| MouseLeave
| MouseMove (offsetX offsetY : Z)
| CanvasMounted
| CanvasUnmounted
| ImageLaidOut (image : HTMLImageElement)
| ImageUnmounted
| EffectRuns
| SizingListenerRuns.

(** The canvas is rendered over the image in edit mode on the inpaint tab. *)
Definition canvasRendered (w : World) : bool :=
  truthy_opt (imageUrl (core w)) &&
  match mode (core w), editModeTab (editing w) with
  | edit, inpaint => true
  | _, _ => false
  end.

Definition inMode (m : AppMode) (w : World) : bool :=
  match mode (core w), m with
  | generate, generate | edit, edit => true
  | _, _ => false
  end.

Definition onTab (tab : EditModeTab) (w : World) : bool :=
  inMode edit w &&
  match editModeTab (editing w), tab with
  | inpaint, inpaint | newScene, newScene | addText, addText => true
  | _, _ => false
  end.

(** Whether an event can happen: the control is rendered and not disabled.
    The generation controls are rendered in generate mode and the editing
    controls otherwise; React attaches a canvas, possibly a new one, while
    the canvas is rendered; the effect and its listeners are not
    constrained. *)
Definition enabled (e : Event) (w : World) : bool :=
  match e with
  | ChangePrompt _ | ChangeStyle _ | ChangeAspectRatio _ | ChangeAge _
  | ChangeDominantColor _ | ChangeEthnicity _ => inMode generate w
  | ClickGenerate => inMode generate w && negb (isLoading (core w))
  | ClickTab _ | ClickDownload | ClickStartOver => inMode edit w
  | ChangeInpaintPrompt _ | ClickClearMask => onTab inpaint w
  | ChangeBrushSize v => onTab inpaint w && (10 <=? v)%Z && (v <=? 100)%Z
  | ClickApplyEdit =>
      onTab inpaint w && negb (isLoading (core w))
      && truthy (inpaintPrompt (editing w))
  | ChangeNewScenePrompt _ => onTab newScene w
  | ClickGenerateNewScene =>
      onTab newScene w && negb (isLoading (core w))
      && truthy (newScenePrompt (editing w))
  | ChangeTextContent _ | ChangeTextLanguage _ => onTab addText w
  | ClickAddText =>
      onTab addText w && negb (isLoading (core w))
      && truthy (textContent (editing w))
  | MouseDown _ _ | MouseUp | MouseLeave | MouseMove _ _ | CanvasMounted =>
      canvasRendered w
  | CanvasUnmounted => negb (canvasRendered w)
  | ImageLaidOut _ => truthy_opt (imageUrl (core w))
  | ImageUnmounted => negb (truthy_opt (imageUrl (core w)))
  | EffectRuns | SizingListenerRuns => true
  end.

(** A canvas element as the browser creates it: 300 by 150 and empty. *)
Definition newCanvas (id : nat) : HTMLCanvasElement :=
  mkCanvas id 300 150 blank.

Definition mountCanvas (w : World) : World :=
  mkWorld (core w) (generation w) (editing w)
    (Some (newCanvas (elements w))) (imageRef w) (contextRef w) (network w)
    (S (elements w)).

Section Session.

Variable toDataURL : HTMLCanvasElement -> string.
Variable strokeCovers : CanvasRenderingContext2D -> Z -> Z -> bool.

(** What an event runs.  The provider is given per event: it may answer the
    same request differently at different times.  A download touches
    nothing of the state. *)
Definition handlerOf (ai : Params.t -> Completion Response.t) (e : Event)
  : M World unit :=
  match e with
  | ChangePrompt v => setPrompt v
  | ChangeStyle v => setStyle v
  | ChangeAspectRatio v => setAspectRatio v
  | ChangeAge v => setAge v
  | ChangeDominantColor v => setDominantColor v
  | ChangeEthnicity v => setEthnicity v
  | ClickGenerate => handleGenerate ai
  | ClickTab tab => setEditModeTab tab
  | ChangeInpaintPrompt v => setInpaintPrompt v
  | ChangeBrushSize v => setBrushSize v
  | ClickApplyEdit => handleApplyInpaint ai toDataURL
  | ClickClearMask => clearCanvas
  | ChangeNewScenePrompt v => setNewScenePrompt v
  | ClickGenerateNewScene => handleGenerateNewScene ai
  | ChangeTextContent v => setTextContent v
  | ChangeTextLanguage v => setTextLanguage v
  | ClickAddText => handleApplyText ai
  | ClickDownload => ret tt
  | ClickStartOver => handleStartOver
  | MouseDown x y => startDrawing x y
  | MouseUp | MouseLeave => stopDrawing
  | MouseMove x y => draw strokeCovers x y
  | CanvasMounted => modify mountCanvas
  | CanvasUnmounted => modify (withCanvasRef None)
  | ImageLaidOut image => modify (withImageRef (Some image))
  | ImageUnmounted => modify (withImageRef None)
  | EffectRuns => canvasEffect
  | SizingListenerRuns => setCanvasDimensions
  end.

Definition fire (ai : Params.t -> Completion Response.t) (e : Event)
  (w : World) : World :=
  exec (handlerOf ai e) w.

(** The states the component can be in. *)
Inductive reachable : World -> Prop :=
| reachable_initial : reachable initialWorld
| reachable_fire ai e w :
    reachable w -> enabled e w = true -> reachable (fire ai e w).

End Session.

End App.

(** ** Vocabulary of the properties *)

Import Js GeminiService App.

(** *** Prompt composition, as the description of the composer has it

    The composed prompt is a list of sentences.  Four of them are always
    there; the sentence on the apparent age and the one on the colour palette
    are there when their field is given. *)

Inductive Sentence : Type :=
| Opening (style ethnicity : string)
| Photograph
| KeyDetails (description : string)
| AgeClause (age : string)
| ColorClause (dominantColor : string)
| Closing.

Definition text (s : Sentence) : string :=
  match s with
  | Opening style ethnicity =>
      "Create a " ++ style ++ ", ultra-realistic, full-body portrait of a "
        ++ ethnicity ++ " AI influencer."
  | Photograph =>
      " The style should be high-resolution, resembling a professional photograph."
  | KeyDetails description => " Key details: " ++ description ++ "."
  | AgeClause age =>
      " The influencer should appear to be around " ++ age ++ " years old."
  | ColorClause dominantColor =>
      " The image's color palette should be dominated by shades of "
        ++ dominantColor ++ "."
  | Closing =>
      " Focus on realistic skin textures, intricate details, natural lighting, and a compelling pose."
  end.

Definition optional (field : string) (s : Sentence) : list Sentence :=
  if truthy field then [s] else [].

Definition sentences (o : GenerateImageOptions.t) : list Sentence :=
  ([Opening (GenerateImageOptions.style o) (GenerateImageOptions.ethnicity o);
    Photograph;
    KeyDetails (GenerateImageOptions.prompt o)]
   ++ optional (GenerateImageOptions.age o)
        (AgeClause (GenerateImageOptions.age o))
   ++ optional (GenerateImageOptions.dominantColor o)
        (ColorClause (GenerateImageOptions.dominantColor o))
   ++ [Closing])%list.

(** [sentences.join('')]: the sentences put one after the other. *)
Definition joined (l : list string) : string := fold_right append "" l.

Definition hasAgeClause (o : GenerateImageOptions.t) : Prop :=
  exists age, In (AgeClause age) (sentences o).

Definition hasColorClause (o : GenerateImageOptions.t) : Prop :=
  exists color, In (ColorClause color) (sentences o).


(** *** The four remote operations *)

Inductive Operation : Type := Generate | Inpaint | RegenerateScene | AddText.

(** A call of the service. *)
Inductive Call : Type :=
| GenerateCall (options : GenerateImageOptions.t)
| InpaintCall (options : InpaintImageOptions.t)
| SceneCall (options : GenerateConsistentCharacterOptions.t)
| TextCall (options : AddTextToImageOptions.t).

Definition operationOf (call : Call) : Operation :=
  match call with
  | GenerateCall _ => Generate
  | InpaintCall _ => Inpaint
  | SceneCall _ => RegenerateScene
  | TextCall _ => AddText
  end.

Definition perform (ai : Params.t -> Completion Response.t) (call : Call)
  : M Network string :=
  match call with
  | GenerateCall options => generateInfluencerImage ai options
  | InpaintCall options => inpaintImage ai options
  | SceneCall options => generateConsistentCharacter ai options
  | TextCall options => addTextToImage ai options
  end.

Definition requestOf (call : Call) : Params.t :=
  match call with
  | GenerateCall options => generateRequest options
  | InpaintCall options => inpaintRequest options
  | SceneCall options => sceneRequest options
  | TextCall options => textRequest options
  end.

(** The handler of an operation. *)
Definition handler (ai : Params.t -> Completion Response.t)
  (toDataURL : HTMLCanvasElement -> string) (op : Operation) : M World unit :=
  match op with
  | Generate => handleGenerate ai
  | Inpaint => handleApplyInpaint ai toDataURL
  | RegenerateScene => handleGenerateNewScene ai
  | AddText => handleApplyText ai
  end.

(** The bytes of the first generated image of a settled request, if any:
    there is none when the promise was rejected and when the response has no
    image. *)
Definition firstImageBytes (c : Completion Response.t) : option string :=
  match c with
  | Returned response =>
      match Response.generatedImages response with
      | Some (first :: _) =>
          Some (Image.imageBytes (GeneratedImage.image first))
      | _ => None
      end
  | Threw _ => None
  end.


(** Running [h] from [w] sends exactly the request [req]. *)
Definition issues (h : M World unit) (w : World) (req : Params.t) : Prop :=
  network (exec h w) = (network w ++ [req])%list.

(** The messages of an operation: for an empty result, the prefix put before
    the message of a caught error, and for a caught value that is no error. *)
Definition emptyResult (op : Operation) : string :=
  match op with
  | Generate => "Image generation failed, no images were returned."
  | Inpaint => "Inpainting failed, no images were returned."
  | RegenerateScene =>
      "Consistent character generation failed, no images were returned."
  | AddText => "Adding text failed, no images were returned."
  end.

Definition failurePrefix (op : Operation) : string :=
  match op with
  | Generate => "Failed to generate influencer image: "
  | Inpaint => "Failed to inpaint image: "
  | RegenerateScene => "Failed to generate consistent character: "
  | AddText => "Failed to add text to image: "
  end.

Definition unknownFailure (op : Operation) : string :=
  match op with
  | Generate => "An unknown error occurred during image generation."
  | Inpaint => "An unknown error occurred during image inpainting."
  | RegenerateScene =>
      "An unknown error occurred during consistent character generation."
  | AddText => "An unknown error occurred while adding text to the image."
  end.

(** What a call of the service completes with, given how its request
    settled. *)
Definition settle (op : Operation) (c : Completion Response.t)
  : Completion string :=
  match c with
  | Returned _ =>
      match firstImageBytes c with
      | Some bytes => Returned (dataUri bytes)
      | None => Threw (ErrorObj (failurePrefix op ++ emptyResult op))
      end
  | Threw (ErrorObj message) => Threw (ErrorObj (failurePrefix op ++ message))
  | Threw (NonError _) => Threw (ErrorObj (unknownFailure op))
  end.

(** The call an operation makes from a state, when its guard lets it. *)
Definition callOf (toDataURL : HTMLCanvasElement -> string) (op : Operation)
  (w : World) : option Call :=
  match op with
  | Generate =>
      Some (GenerateCall
              (GenerateImageOptions.mk (prompt (generation w))
                 (aspectRatio (generation w)) (style (generation w))
                 (age (generation w)) (dominantColor (generation w))
                 (ethnicity (generation w))))
  | Inpaint =>
      match imageUrl (core w), canvasRef w with
      | Some url, Some current =>
          if truthy url
          then Some (InpaintCall
                       (InpaintImageOptions.mk (inpaintPrompt (editing w))
                          (getBase64FromDataUrl url)
                          (getBase64FromDataUrl (toDataURL current))))
          else None
      | _, _ => None
      end
  | RegenerateScene =>
      match imageUrl (core w) with
      | Some url =>
          if truthy url
          then Some (SceneCall
                       (GenerateConsistentCharacterOptions.mk
                          (newScenePrompt (editing w))
                          (getBase64FromDataUrl url)
                          (aspectRatio (generation w))))
          else None
      | None => None
      end
  | AddText =>
      match imageUrl (core w) with
      | Some url =>
          if truthy url && truthy (textContent (editing w))
          then Some (TextCall
                       (AddTextToImageOptions.mk (textContent (editing w))
                          (getBase64FromDataUrl url)
                          (textLanguage (editing w))))
          else None
      | None => None
      end
  end.

(** What an operation does with the image it received. *)
Definition onSuccess (op : Operation) (resultUrl : string) : M World unit :=
  match op with
  | Generate => setImageUrl (Some resultUrl) ;; setMode edit
  | Inpaint => setImageUrl (Some resultUrl) ;; clearCanvas ;; setInpaintPrompt ""
  | RegenerateScene => setImageUrl (Some resultUrl) ;; setNewScenePrompt ""
  | AddText => setImageUrl (Some resultUrl) ;; setTextContent ""
  end.

(** The state a handler leaves, given the call and how its request settled. *)
Definition conclude (op : Operation) (call : Call)
  (c : Completion Response.t) (w : World) : World :=
  let started := exec (setIsLoading true ;; setError None) w in
  let sent := withNetwork (network w ++ [requestOf call])%list started in
  exec (setIsLoading false)
    (match settle op c with
     | Returned resultUrl => exec (onSuccess op resultUrl) sent
     | Threw e => exec (setError (Some (errorMessageOf e))) sent
     end).

(** *** The mask *)

(** An empty raster: no pixel of the bitmap carries ink. *)
Definition Blank (c : HTMLCanvasElement) : Prop :=
  forall x y, (0 <= x < width c)%Z -> (0 <= y < height c)%Z ->
    pixels c x y = false.

(** The mask of a state is clear when there is no canvas or its raster is
    empty. *)
Definition maskClear (w : World) : Prop :=
  match canvasRef w with
  | Some c => Blank c
  | None => True
  end.

(** The context held by [contextRef] is the one of the canvas held by
    [canvasRef]. *)
Definition attached (w : World) : bool :=
  match canvasRef w, contextRef w with
  | Some c, Some x => Nat.eqb (canvasId c) (canvas x)
  | _, _ => false
  end.

(** Ink on the mask was drawn through the context in [contextRef]. *)
Definition inkThroughContext (w : World) : Prop :=
  attached w = false -> maskClear w.

(** In generate mode the edit tab is the inpaint tab. *)
Definition tabReset (w : World) : Prop :=
  mode (core w) = generate -> editModeTab (editing w) = inpaint.




(** The attributes of the scenario: an anime persona with neither age nor
    colour given. *)
Definition scenarioAttributes : GenerateImageOptions.t :=
  GenerateImageOptions.mk "D" Ratio_1_1 "Anime" "" "" "Asian".


(** *** Sample providers, browsers and states *)

(** A provider that answers every request with one image of the given
    bytes, one that answers with no image, and one that cannot be reached. *)
Definition answering (bytes : string) : Params.t -> Completion Response.t :=
  fun _ => Returned (Response.mk (Some [GeneratedImage.mk (Image.mk bytes)])).

Definition answeringNothing : Params.t -> Completion Response.t :=
  fun _ => Returned (Response.mk (Some [])).

Definition unreachable : Params.t -> Completion Response.t :=
  fun _ => Threw (ErrorObj "Failed to fetch").

(** An encoder that gives every canvas the same PNG. *)
Definition samplePng : HTMLCanvasElement -> string :=
  fun _ => "data:image/png;base64,iVBORw0KGgo=".

(** A rasteriser that inks the square of side [lineWidth] around every
    point of the path. *)
Definition squareBrush (x : CanvasRenderingContext2D) (px py : Z) : bool :=
  existsb
    (existsb (fun point =>
       (Z.abs (px - fst point) <=? lineWidth x / 2)%Z
       && (Z.abs (py - snd point) <=? lineWidth x / 2)%Z))
    (path x).



(** The session after a first image was generated, the canvas was mounted
    and sized over a 4 by 4 image, an edit was typed and one stroke was
    drawn. *)
Definition drawnEvents : list Event :=
  [ClickGenerate; CanvasMounted; ImageLaidOut (mkImage 4 4 true 4);
   EffectRuns; ChangeInpaintPrompt "add sunglasses"; MouseDown 1 1;
   MouseMove 2 2].

Definition drawnWorld : World :=
  fold_left
    (fun w e => fire samplePng squareBrush (answering "AAAA") e w)
    drawnEvents initialWorld.

(** The requests the edits send from that session. *)
Definition drawnInpaintRequest : Params.t :=
  inpaintRequest
    (InpaintImageOptions.mk "add sunglasses" (Some "AAAA")
       (Some "iVBORw0KGgo=")).

Definition drawnSceneRequest : Params.t :=
  sceneRequest
    (GenerateConsistentCharacterOptions.mk "" (Some "AAAA") Ratio_1_1).


(** The attributes the form starts with, and the request of a generate
    from the initial state. *)
Definition initialAttributes : GenerateImageOptions.t :=
  GenerateImageOptions.mk (prompt (generation initialWorld)) Ratio_1_1
    "Photorealistic" "25" "Neon Pink" "Caucasian".

Definition initialRequest : Params.t := generateRequest initialAttributes.

(** *** The download *)

(** What [handleDownload] asks of the browser: the link it creates, with its
    [href] and its [download] name. *)
Record DownloadLink : Type := mkDownloadLink {
  href : string;
  download : string }.

(** [`${n}`] for an integer. *)
Definition decimal (n : Z) : string := NilZero.string_of_int (Z.to_int n).

(** [handleDownload], with [now] for [Date.now()].  The link is appended to
    the document, clicked and removed again, and no state is set: what is
    left of the call is the download it starts, if any. *)
Definition handleDownload (now : Z) (w : World) : option DownloadLink :=
  match imageUrl (core w) with
  | Some url =>
      if negb (truthy url) then None
      else Some (mkDownloadLink url ("ai-influencer-" ++ decimal now ++ ".jpeg"))
  | None => None
  end.

(** *** Sessions *)

(** The state after a list of events, the same provider answering each. *)
Definition after (toDataURL : HTMLCanvasElement -> string)
  (strokeCovers : CanvasRenderingContext2D -> Z -> Z -> bool)
  (ai : Params.t -> Completion Response.t) (events : list Event) (w : World)
  : World :=
  fold_left (fun s e => fire toDataURL strokeCovers ai e s) events w.

(** No request is pending, and the mode goes with the image: generate mode
    has none, edit mode has a data URI made by the service. *)
Definition settled (w : World) : Prop :=
  isLoading (core w) = false
  /\ ((mode (core w) = generate /\ imageUrl (core w) = None)
      \/ (mode (core w) = edit
          /\ exists bytes, imageUrl (core w) = Some (dataUri bytes))).

(** The events of the controls that start a remote operation. *)
Definition startsOperation (e : Event) : bool :=
  match e with
  | ClickGenerate | ClickApplyEdit | ClickGenerateNewScene | ClickAddText =>
      true
  | _ => false
  end.

(** The events of the generation controls and those the browser and React
    produce when no image is shown. *)
Definition availableWithoutImage (e : Event) : bool :=
  match e with
  | ChangePrompt _ | ChangeStyle _ | ChangeAspectRatio _ | ChangeAge _
  | ChangeDominantColor _ | ChangeEthnicity _ | ClickGenerate
  | CanvasUnmounted | ImageUnmounted | EffectRuns | SizingListenerRuns =>
      true
  | _ => false
  end.

(** *** More sample states *)


(** The canvas of the session with a stroke. *)
Definition drawnCanvas : HTMLCanvasElement :=
  mkCanvas 0 4 4
    (fun px py =>
       blank px py
       || squareBrush (mkContext 0 "round" "white" 40 [[(1, 1); (2, 2)]])%Z
            px py).

(** * Properties *)

(** ** Strings *)

Lemma append_assoc (a b c : string) : (a ++ b) ++ c = a ++ b ++ c.
Proof. induction a as [|ch a IH]; cbn; [reflexivity | now rewrite IH]. Qed.

Lemma append_empty_r (a : string) : a ++ "" = a.
Proof. induction a as [|ch a IH]; cbn; [reflexivity | now rewrite IH]. Qed.

Lemma length_append (a b : string) :
  String.length (a ++ b) = String.length a + String.length b.
Proof. induction a as [|ch a IH]; cbn; [reflexivity | now rewrite IH]. Qed.

Lemma truthy_true (s : string) : truthy s = true <-> s <> "".
Proof. destruct s; cbn; split; congruence. Qed.

Lemma prefix_append (t rest : string) : String.prefix t (t ++ rest) = true.
Proof.
  induction t as [|ch t IH]; cbn.
  - now destruct rest.
  - destruct (ascii_dec ch ch) as [_|N]; [exact IH | now elim N].
Qed.

Lemma prefix_split (t s : string) :
  String.prefix t s = true -> exists rest, s = t ++ rest.
Proof.
  revert s. induction t as [|ch t IH]; intros s H.
  - now exists s.
  - destruct s as [|ch' s]; cbn in H; [discriminate|].
    destruct (ascii_dec ch ch') as [->|_]; [|discriminate].
    destruct (IH _ H) as [rest ->]. now exists rest.
Qed.

(** [includes] decides [Occurs]. *)
Lemma includes_occurs (s t : string) : includes s t = true <-> Occurs t s.
Proof.
  split.
  - induction s as [|ch s IH]; cbn [includes]; intros H.
    + rewrite orb_false_r in H. destruct (prefix_split _ _ H) as [rest E].
      exists "", rest. exact E.
    + apply orb_true_iff in H. destruct H as [H|H].
      * destruct (prefix_split _ _ H) as [rest E]. exists "", rest. exact E.
      * destruct (IH H) as (before & after & ->).
        now exists (String ch before), after.
  - intros (before & after & ->). induction before as [|ch before IH].
    + cbn [append]. destruct (t ++ after) eqn:E; cbn [includes];
        rewrite <- E, prefix_append; reflexivity.
    + cbn [append includes]. rewrite IH. apply orb_true_r.
Qed.

Lemma not_includes_occurs (s t : string) :
  includes s t = false -> ~ Occurs t s.
Proof.
  intros H O. apply includes_occurs in O. congruence.
Qed.

Lemma Occurs_trans (a b c : string) : Occurs a b -> Occurs b c -> Occurs a c.
Proof.
  intros (p & q & ->) (p' & q' & ->).
  exists (p' ++ p), (q ++ q'). now rewrite !append_assoc.
Qed.

Lemma Occurs_joined (x : string) (l : list string) :
  In x l -> Occurs x (joined l).
Proof.
  induction l as [|y l IH]; intros H; [contradiction|].
  destruct H as [->|H].
  - exists "", (joined l). reflexivity.
  - destruct (IH H) as (p & q & E). exists (y ++ p), q.
    cbn [joined fold_right]. fold (joined l). rewrite E.
    now rewrite append_assoc.
Qed.

(** A string without the separator is split into itself alone. *)
Lemma split_without (s : string) : ~ Occurs "," s -> split comma s = [s].
Proof.
  induction s as [|ch s IH]; intros N; [reflexivity|].
  cbn [split]. destruct (Ascii.eqb ch comma) eqn:E.
  - apply Ascii.eqb_eq in E. subst ch. elim N. now exists "", s.
  - rewrite IH; [reflexivity|].
    intros (before & after & ->). apply N.
    now exists (String ch before), after.
Qed.

(** The bytes taken back from a data URI of the service are the bytes it was
    built from, up to their first comma; base64 text has none. *)
Lemma getBase64FromDataUrl_dataUri (bytes : string) :
  App.getBase64FromDataUrl (dataUri bytes) = hd_error (split comma bytes).
Proof.
  unfold App.getBase64FromDataUrl, dataUri. cbn. reflexivity.
Qed.

Lemma getBase64FromDataUrl_roundtrip (bytes : string) :
  ~ Occurs "," bytes ->
  App.getBase64FromDataUrl (dataUri bytes) = Some bytes.
Proof.
  intros N. now rewrite getBase64FromDataUrl_dataUri, split_without.
Qed.

(** ** The initial prompt *)

(** The code builds the prompt the description of the composer says. *)
Lemma fullPrompt_joined (o : GenerateImageOptions.t) :
  fullPrompt o = joined (map text (sentences o)).
Proof.
  destruct o as [p r s a d e]. unfold fullPrompt, sentences, optional.
  cbn [GenerateImageOptions.age GenerateImageOptions.dominantColor
       GenerateImageOptions.style GenerateImageOptions.ethnicity
       GenerateImageOptions.prompt].
  destruct (truthy a), (truthy d); cbn [map app joined fold_right text];
    rewrite ?append_assoc, ?append_empty_r; cbn; rewrite ?append_assoc; cbn;
    rewrite ?append_assoc; reflexivity.
Qed.

Lemma In_optional (field : string) (s t : Sentence) :
  In t (optional field s) <-> truthy field = true /\ t = s.
Proof.
  unfold optional. destruct (truthy field); cbn; intuition congruence.
Qed.

Lemma hasAgeClause_iff (o : GenerateImageOptions.t) :
  hasAgeClause o <-> GenerateImageOptions.age o <> "".
Proof.
  rewrite <- truthy_true. unfold hasAgeClause, sentences. split.
  - intros (a & H). cbn in H.
    destruct H as [H|[H|[H|H]]]; try discriminate.
    apply in_app_or in H. destruct H as [H|H].
    + now apply In_optional in H.
    + apply in_app_or in H. destruct H as [H|H].
      * apply In_optional in H. destruct H; discriminate.
      * destruct H as [H|[]]. discriminate.
  - intros T. exists (GenerateImageOptions.age o).
    cbn. do 3 right. apply in_or_app. left. now apply In_optional.
Qed.

Lemma hasColorClause_iff (o : GenerateImageOptions.t) :
  hasColorClause o <-> GenerateImageOptions.dominantColor o <> "".
Proof.
  rewrite <- truthy_true. unfold hasColorClause, sentences. split.
  - intros (a & H). cbn in H.
    destruct H as [H|[H|[H|H]]]; try discriminate.
    apply in_app_or in H. destruct H as [H|H].
    + apply In_optional in H. destruct H; discriminate.
    + apply in_app_or in H. destruct H as [H|H].
      * now apply In_optional in H.
      * destruct H as [H|[]]. discriminate.
  - intros T. exists (GenerateImageOptions.dominantColor o).
    cbn. do 3 right. apply in_or_app. right. apply in_or_app. left.
    now apply In_optional.
Qed.

Lemma Occurs_sentence (o : GenerateImageOptions.t) (s : Sentence) :
  In s (sentences o) -> Occurs (text s) (fullPrompt o).
Proof.
  intros H. rewrite fullPrompt_joined. apply Occurs_joined.
  now apply in_map.
Qed.



(** C4.  The composed prompt contains the description, the style and the
    ethnicity as they were typed; the age sentence is part of it exactly when
    the age is not empty, and the colour sentence exactly when the dominant
    colour is not empty.  For the attributes of the scenario the prompt
    contains Anime, Asian and D, and none of the words of the two optional
    sentences. *)
Theorem initial_prompt_contents (o : GenerateImageOptions.t) :
  Occurs (GenerateImageOptions.prompt o) (fullPrompt o)
  /\ Occurs (GenerateImageOptions.style o) (fullPrompt o)
  /\ Occurs (GenerateImageOptions.ethnicity o) (fullPrompt o)
  /\ fullPrompt o = joined (map text (sentences o))
  /\ (hasAgeClause o <-> GenerateImageOptions.age o <> "")
  /\ (GenerateImageOptions.age o <> "" ->
      Occurs (text (AgeClause (GenerateImageOptions.age o))) (fullPrompt o))
  /\ (hasColorClause o <-> GenerateImageOptions.dominantColor o <> "")
  /\ (GenerateImageOptions.dominantColor o <> "" ->
      Occurs (text (ColorClause (GenerateImageOptions.dominantColor o)))
        (fullPrompt o))
  /\ (let p := fullPrompt scenarioAttributes in
      Occurs "Anime" p /\ Occurs "Asian" p /\ Occurs "D" p
      /\ ~ hasAgeClause scenarioAttributes
      /\ ~ hasColorClause scenarioAttributes
      /\ ~ Occurs "The influencer should appear to be around" p
      /\ ~ Occurs "years old" p
      /\ ~ Occurs "color palette" p
      /\ ~ Occurs "dominated by shades of" p).
Proof.
  split; [|split; [|split; [|split; [|split; [|split; [|split; [|split]]]]]]].
  - eapply Occurs_trans;
      [|apply (Occurs_sentence o (KeyDetails (GenerateImageOptions.prompt o)))].
    + exists " Key details: ", ".". reflexivity.
    + cbn. auto.
  - eapply Occurs_trans;
      [|apply (Occurs_sentence o
                 (Opening (GenerateImageOptions.style o)
                    (GenerateImageOptions.ethnicity o)))].
    + exists "Create a ". eexists. reflexivity.
    + cbn. auto.
  - eapply Occurs_trans;
      [|apply (Occurs_sentence o
                 (Opening (GenerateImageOptions.style o)
                    (GenerateImageOptions.ethnicity o)))].
    + exists ("Create a " ++ GenerateImageOptions.style o
              ++ ", ultra-realistic, full-body portrait of a "),
        " AI influencer.".
      cbn [text]. now rewrite !append_assoc.
    + cbn. auto.
  - apply fullPrompt_joined.
  - apply hasAgeClause_iff.
  - intros H. apply Occurs_sentence. cbn. do 3 right. apply in_or_app. left.
    apply In_optional. split; [now apply truthy_true | reflexivity].
  - apply hasColorClause_iff.
  - intros H. apply Occurs_sentence. cbn. do 3 right. apply in_or_app. right.
    apply in_or_app. left.
    apply In_optional. split; [now apply truthy_true | reflexivity].
  - cbv zeta. repeat split;
      try (apply includes_occurs; vm_compute; reflexivity);
      try (apply not_includes_occurs; vm_compute; reflexivity).
    + intros H. apply hasAgeClause_iff in H. now apply H.
    + intros H. apply hasColorClause_iff in H. now apply H.
Qed.

(** ** The service *)

Lemma perform_settle ai call net :
  perform ai call net =
    (settle (operationOf call) (ai (requestOf call)),
     (net ++ [requestOf call])%list).
Proof.
  destruct call; cbn [perform requestOf operationOf];
    unfold generateInfluencerImage, inpaintImage, generateConsistentCharacter,
      addTextToImage, tryCatch, bind, generateImages;
    (destruct (ai _) as [[[[|first rest]|]]|[message|shown]]; reflexivity).
Qed.


Lemma eval_perform ai call net :
  eval (perform ai call) net = settle (operationOf call) (ai (requestOf call)).
Proof. unfold eval. now rewrite perform_settle. Qed.


Lemma settle_returned op c bytes :
  firstImageBytes c = Some bytes -> settle op c = Returned (dataUri bytes).
Proof.
  destruct c as [response|e]; cbn [firstImageBytes settle]; [|discriminate].
  now intros ->.
Qed.

Lemma failurePrefix_truthy op : failurePrefix op <> "".
Proof. destruct op; discriminate. Qed.

Lemma append_not_empty (a b : string) : a <> "" -> a ++ b <> "".
Proof. destruct a; [congruence | discriminate]. Qed.

Lemma settle_threw op c :
  firstImageBytes c = None ->
  exists message, settle op c = Threw (ErrorObj message) /\ message <> "".
Proof.
  destruct c as [response|[message|shown]]; cbn [settle].
  - intros ->. eexists. split; [reflexivity|].
    apply append_not_empty, failurePrefix_truthy.
  - intros _. eexists. split; [reflexivity|].
    apply append_not_empty, failurePrefix_truthy.
  - intros _. eexists. split; [reflexivity|]. destruct op; discriminate.
Qed.



(** ** The handlers of the remote operations *)

Lemma await_perform ai call w :
  await (perform ai call) w =
    (settle (operationOf call) (ai (requestOf call)),
     withNetwork (network w ++ [requestOf call])%list w).
Proof. unfold await. now rewrite perform_settle. Qed.

Lemma onSuccess_returns op url s : eval (onSuccess op url) s = Returned tt.
Proof.
  destruct op; try reflexivity.
  unfold eval, onSuccess, clearCanvas, bind, setImageUrl, setInpaintPrompt,
    modify, get, ret.
  cbn. destruct (canvasRef s), (contextRef s); reflexivity.
Qed.

(** The body the four handlers share after their guard. *)
Lemma guarded_call ai call w :
  exec (setIsLoading true ;; setError None ;;
        tryFinally
          (tryCatch
             (resultUrl <- await (perform ai call) ;;
              onSuccess (operationOf call) resultUrl)
             (fun e =>
                let errorMessage := errorMessageOf e in
                setError (Some errorMessage)))
          (setIsLoading false)) w =
  conclude (operationOf call) call (ai (requestOf call)) w.
Proof.
  unfold conclude, exec, tryFinally, tryCatch, bind, setIsLoading, setError,
    modify.
  cbn beta iota. rewrite await_perform.
  cbn [withCore network core snd fst].
  destruct (settle _ _) as [url|e]; [|reflexivity].
  match goal with
  | |- context [onSuccess ?o ?u ?s] =>
      pose proof (onSuccess_returns o u s) as R; unfold eval in R;
      destruct (onSuccess o u s) as [c s']
  end.
  cbn in R. subst c. reflexivity.
Qed.

Ltac by_guarded_call ai w :=
  match goal with
  | |- _ = conclude _ ?call _ _ => exact (guarded_call ai call w)
  end.

(** A handler either stops at its guard or makes its call and concludes. *)
Lemma handler_exec ai toDataURL op w :
  exec (handler ai toDataURL op) w =
    match callOf toDataURL op w with
    | Some call => conclude op call (ai (requestOf call)) w
    | None => w
    end.
Proof.
  destruct op; cbn [handler callOf].
  - by_guarded_call ai w.
  - unfold handleApplyInpaint, exec at 1, bind at 1, get at 1. cbn beta iota.
    destruct (imageUrl (core w)) as [url|]; [|reflexivity].
    destruct (canvasRef w) as [current|]; [|reflexivity].
    destruct (truthy url); [|reflexivity].
    by_guarded_call ai w.
  - unfold handleGenerateNewScene, exec at 1, bind at 1, get at 1.
    cbn beta iota.
    destruct (imageUrl (core w)) as [url|]; [|reflexivity].
    destruct (truthy url); [|reflexivity].
    by_guarded_call ai w.
  - unfold handleApplyText, exec at 1, bind at 1, get at 1. cbn beta iota.
    destruct (imageUrl (core w)) as [url|]; [|reflexivity].
    destruct (truthy url); [|reflexivity].
    destruct (truthy (textContent (editing w))); [|reflexivity].
    cbn [negb orb andb].
    by_guarded_call ai w.
Qed.

Lemma exec_clearCanvas w :
  exec clearCanvas w =
    match canvasRef w, contextRef w with
    | Some c, Some x => onCanvasOf x (clearRect 0 0 (width c) (height c)) w
    | _, _ => w
    end.
Proof.
  unfold exec, clearCanvas, bind, get. cbn beta iota.
  destruct (canvasRef w), (contextRef w); reflexivity.
Qed.

(** Clearing the canvas touches nothing but the canvas. *)
Lemma clearCanvas_frame w :
  let w' := exec clearCanvas w in
  core w' = core w /\ generation w' = generation w /\ editing w' = editing w
  /\ imageRef w' = imageRef w /\ contextRef w' = contextRef w
  /\ network w' = network w /\ elements w' = elements w.
Proof.
  cbv zeta. rewrite exec_clearCanvas. unfold onCanvasOf.
  destruct (canvasRef w) as [c|] eqn:C; [|now repeat split].
  destruct (contextRef w) as [x|] eqn:X; [|now repeat split].
  destruct (Nat.eqb _ _); now repeat split.
Qed.

Lemma conclude_threw op call c w message :
  settle op c = Threw (ErrorObj message) ->
  conclude op call c w =
    mkWorld (mkCore (mode (core w)) false (Some message) (imageUrl (core w)))
      (generation w) (editing w) (canvasRef w) (imageRef w) (contextRef w)
      (network w ++ [requestOf call])%list (elements w).
Proof. unfold conclude. now intros ->. Qed.

Lemma conclude_returned op call c w url :
  settle op c = Returned url ->
  conclude op call c w =
    exec (setIsLoading false)
      (exec (onSuccess op url)
         (mkWorld (mkCore (mode (core w)) true None (imageUrl (core w)))
            (generation w) (editing w) (canvasRef w) (imageRef w)
            (contextRef w) (network w ++ [requestOf call])%list
            (elements w))).
Proof. unfold conclude. now intros ->. Qed.

Lemma settle_cases op c :
  (exists bytes, firstImageBytes c = Some bytes
                 /\ settle op c = Returned (dataUri bytes))
  \/ (exists message, firstImageBytes c = None
                      /\ settle op c = Threw (ErrorObj message)
                      /\ message <> "").
Proof.
  destruct (firstImageBytes c) as [bytes|] eqn:F.
  - left. exists bytes. split; [reflexivity | now apply settle_returned].
  - right. destruct (settle_threw op c F) as (message & S & N).
    now exists message.
Qed.

Lemma eval_clearCanvas s : eval clearCanvas s = Returned tt.
Proof.
  unfold eval, clearCanvas, bind, get. cbn beta iota.
  destruct (canvasRef s), (contextRef s); reflexivity.
Qed.

Lemma exec_then (a k : M World unit) s :
  eval a s = Returned tt -> exec (a ;; k) s = exec k (exec a s).
Proof.
  unfold eval, exec, bind. destruct (a s) as [c s']. cbn. now intros ->.
Qed.

(** The state after a successful inpaint, step by step. *)
Lemma exec_onSuccess_inpaint url s :
  exec (onSuccess Inpaint url) s =
    exec (setInpaintPrompt "")
      (exec clearCanvas (exec (setImageUrl (Some url)) s)).
Proof.
  unfold onSuccess. rewrite exec_then by reflexivity.
  rewrite exec_then by apply eval_clearCanvas. reflexivity.
Qed.

Lemma network_onSuccess op url s :
  network (exec (onSuccess op url) s) = network s.
Proof.
  destruct op; try reflexivity.
  rewrite exec_onSuccess_inpaint.
  change (network (exec clearCanvas (exec (setImageUrl (Some url)) s))
          = network s).
  now destruct (clearCanvas_frame (exec (setImageUrl (Some url)) s))
    as (_ & _ & _ & _ & _ & N & _).
Qed.

Lemma network_conclude op call c w :
  network (conclude op call c w) = (network w ++ [requestOf call])%list.
Proof.
  destruct (settle_cases op c) as [(bytes & _ & S)|(message & _ & S & _)].
  - rewrite (conclude_returned _ _ _ _ _ S).
    change (network (exec (onSuccess op (dataUri bytes))
      (mkWorld (mkCore (mode (core w)) true None (imageUrl (core w)))
         (generation w) (editing w) (canvasRef w) (imageRef w) (contextRef w)
         (network w ++ [requestOf call])%list (elements w)))
      = (network w ++ [requestOf call])%list).
    now rewrite network_onSuccess.
  - now rewrite (conclude_threw _ _ _ _ _ S).
Qed.

Lemma app_one_neq {A} (l : list A) (x : A) : l <> (l ++ [x])%list.
Proof.
  intros E. apply (f_equal (@List.length A)) in E.
  rewrite length_app in E. cbn in E. lia.
Qed.

(** When a handler sends a request it is the one of its call. *)
Lemma issues_callOf ai toDataURL op w req :
  issues (handler ai toDataURL op) w req ->
  exists call, callOf toDataURL op w = Some call /\ requestOf call = req.
Proof.
  unfold issues. rewrite handler_exec.
  destruct (callOf toDataURL op w) as [call|].
  - rewrite network_conclude. intros E. apply app_inv_head in E.
    exists call. split; [reflexivity | congruence].
  - intros E. now apply app_one_neq in E.
Qed.



(** ** Guards *)

(** C10.  Without a current image, applying an inpaint, regenerating the
    scene and adding text leave the whole state as it was: no request is
    sent, and isLoading, error, the image and every input are untouched.
    Adding text is such a no-op when the text is empty as well. *)
Theorem edits_without_image_are_no_ops ai toDataURL (w : World) :
  (imageUrl (core w) = None ->
     exec (handleApplyInpaint ai toDataURL) w = w
     /\ exec (handleGenerateNewScene ai) w = w
     /\ exec (handleApplyText ai) w = w)
  /\ (textContent (editing w) = "" -> exec (handleApplyText ai) w = w).
Proof.
  split.
  - intros N.
    change (exec (handleApplyInpaint ai toDataURL) w)
      with (exec (handler ai toDataURL Inpaint) w).
    change (exec (handleGenerateNewScene ai) w)
      with (exec (handler ai toDataURL RegenerateScene) w).
    change (exec (handleApplyText ai) w)
      with (exec (handler ai toDataURL AddText) w).
    rewrite !handler_exec. cbn [callOf]. rewrite N. now repeat split.
  - intros T.
    change (exec (handleApplyText ai) w)
      with (exec (handler ai toDataURL AddText) w).
    rewrite handler_exec. cbn [callOf]. rewrite T.
    destruct (imageUrl (core w)) as [url|]; [|reflexivity].
    cbn [truthy]. now rewrite andb_false_r.
Qed.

(** ** Starting over *)

Lemma exec_handleStartOver (w : World) :
  exec handleStartOver w =
    mkWorld (mkCore generate false None None) (generation w)
      (mkEditing inpaint "" "" "" "English" (brushSize (editing w))
         (isDrawing (editing w)))
      (canvasRef w) (imageRef w) (contextRef w) (network w) (elements w).
Proof. reflexivity. Qed.

(** C6.  Starting over leaves the session in generate mode with no image,
    no error and isLoading false, from any state, and doing it twice gives
    the state that doing it once gives. *)
Theorem start_over_resets_and_is_idempotent (w : World) :
  let w' := exec handleStartOver w in
  mode (core w') = generate
  /\ imageUrl (core w') = None
  /\ error (core w') = None
  /\ isLoading (core w') = false
  /\ exec handleStartOver w' = w'.
Proof. cbv zeta. rewrite !exec_handleStartOver. now repeat split. Qed.

(** C7.  Starting over keeps the six attribute fields of the persona and
    discards the image and the inputs of the edits: both prompts and the
    text become empty, the language is English again and the tab is the
    inpaint tab, as in the initial state. *)
Theorem start_over_keeps_attributes_discards_edits (w : World) :
  let w' := exec handleStartOver w in
  generation w' = generation w
  /\ imageUrl (core w') = None
  /\ inpaintPrompt (editing w') = ""
  /\ newScenePrompt (editing w') = ""
  /\ textContent (editing w') = ""
  /\ textLanguage (editing w') = "English"
  /\ editModeTab (editing w') = inpaint
  /\ (inpaintPrompt (editing w'), newScenePrompt (editing w'),
      textContent (editing w'), textLanguage (editing w'),
      editModeTab (editing w'))
     = (inpaintPrompt (editing initialWorld),
        newScenePrompt (editing initialWorld),
        textContent (editing initialWorld),
        textLanguage (editing initialWorld),
        editModeTab (editing initialWorld)).
Proof. cbv zeta. rewrite exec_handleStartOver. now repeat split. Qed.

(** ** The mask *)

Lemma Blank_blank id w h : Blank (mkCanvas id w h blank).
Proof. intros x y _ _. reflexivity. Qed.

(** Clearing the whole bitmap leaves an empty raster. *)
Lemma Blank_clearRect (c : HTMLCanvasElement) :
  Blank (clearRect 0 0 (width c) (height c) c).
Proof.
  intros x y Hx Hy. cbn in *. unfold inRect.
  replace ((0 <=? x)%Z && (x <? 0 + width c)%Z && (0 <=? y)%Z
           && (y <? 0 + height c)%Z) with true; [reflexivity|].
  symmetry. rewrite !andb_true_iff. repeat split;
    try apply Z.leb_le; try apply Z.ltb_lt; lia.
Qed.

Lemma exec_setCanvasDimensions w :
  exec setCanvasDimensions w =
    match imageRef w, canvasRef w with
    | Some image, Some c =>
        mkWorld (core w) (generation w) (editing w)
          (Some (mkCanvas (canvasId c) (clientWidth image)
                   (clientHeight image) blank))
          (imageRef w)
          (Some (mkContext (canvasId c) "round" "white"
                   (brushSize (editing w)) []))
          (network w) (elements w)
    | _, _ => w
    end.
Proof.
  destruct w as [co g ed [c|] [i|] x n el]; reflexivity.
Qed.

Lemma exec_canvasEffect w :
  exec canvasEffect w =
    match mode (core w), canvasRef w, imageRef w with
    | edit, Some _, Some image =>
        if complete image && negb (naturalHeight image =? 0)%Z
        then exec setCanvasDimensions w
        else w
    | _, _, _ => w
    end.
Proof.
  destruct w as [[[|] l er u] g ed [c|] [i|] x n el]; try reflexivity.
  unfold exec, canvasEffect, bind, get.
  cbn [mode core canvasRef imageRef].
  destruct (complete i && negb (naturalHeight i =? 0)%Z); reflexivity.
Qed.

Lemma exec_startDrawing x y w :
  exec (startDrawing x y) w =
    match contextRef w with
    | Some context =>
        exec (setIsDrawing true)
          (withContextRef (Some (moveTo x y (beginPath context))) w)
    | None => w
    end.
Proof.
  unfold exec, startDrawing, bind, get. cbn beta iota.
  destruct (contextRef w); reflexivity.
Qed.

Lemma exec_stopDrawing w :
  exec stopDrawing w =
    match contextRef w with
    | Some context =>
        exec (setIsDrawing false)
          (withContextRef (Some (closePath context)) w)
    | None => w
    end.
Proof.
  unfold exec, stopDrawing, bind, get. cbn beta iota.
  destruct (contextRef w); reflexivity.
Qed.

Lemma exec_draw strokeCovers x y w :
  exec (draw strokeCovers x y) w =
    match isDrawing (editing w), contextRef w with
    | true, Some context =>
        onCanvasOf (lineTo x y context)
          (stroke strokeCovers (lineTo x y context))
          (withContextRef (Some (lineTo x y context)) w)
    | _, _ => w
    end.
Proof.
  unfold exec, draw, bind, get. cbn beta iota.
  destruct (isDrawing (editing w)), (contextRef w); reflexivity.
Qed.

(** The invariant only looks at the two refs. *)
Lemma ink_kept w w' :
  canvasRef w' = canvasRef w -> attached w' = attached w ->
  inkThroughContext w -> inkThroughContext w'.
Proof.
  unfold inkThroughContext, maskClear. intros -> ->. exact (fun H => H).
Qed.

Lemma ink_refs w w' :
  canvasRef w' = canvasRef w -> contextRef w' = contextRef w ->
  inkThroughContext w -> inkThroughContext w'.
Proof.
  intros C X. apply ink_kept; [exact C|]. unfold attached. now rewrite C, X.
Qed.

Lemma ink_clear w : maskClear w -> inkThroughContext w.
Proof. intros H _. exact H. Qed.

(** In a state where ink went through the context, clearing the canvas
    leaves an empty raster. *)
Lemma clearCanvas_clears w :
  inkThroughContext w -> maskClear (exec clearCanvas w).
Proof.
  intros I. rewrite exec_clearCanvas.
  destruct (canvasRef w) as [c|] eqn:C.
  - destruct (contextRef w) as [x|] eqn:X.
    + unfold onCanvasOf. rewrite C.
      destruct (Nat.eqb (canvasId c) (canvas x)) eqn:E.
      * unfold maskClear. cbn. apply Blank_clearRect.
      * apply I. unfold attached. now rewrite C, X.
    + apply I. unfold attached. now rewrite C, X.
  - unfold maskClear. now rewrite C.
Qed.

(** Clearing changes neither the element nor its size. *)
Lemma clearCanvas_size w c :
  canvasRef w = Some c ->
  exists c', canvasRef (exec clearCanvas w) = Some c'
             /\ canvasId c' = canvasId c
             /\ width c' = width c /\ height c' = height c.
Proof.
  intros C. rewrite exec_clearCanvas, C.
  destruct (contextRef w) as [x|]; [|now exists c].
  unfold onCanvasOf. rewrite C.
  destruct (Nat.eqb _ _); [|now exists c].
  eexists. split; [reflexivity|]. now repeat split.
Qed.

Lemma draw_ink strokeCovers x y w :
  inkThroughContext w -> inkThroughContext (exec (draw strokeCovers x y) w).
Proof.
  intros I. rewrite exec_draw.
  destruct (isDrawing (editing w)); [|exact I].
  destruct (contextRef w) as [context|] eqn:X; [|exact I].
  unfold onCanvasOf. cbn [canvasRef withContextRef].
  destruct (canvasRef w) as [c|] eqn:C.
  - cbn [lineTo canvas].
    destruct (Nat.eqb (canvasId c) (canvas context)) eqn:E.
    + intros A. unfold attached in A. cbn in A. congruence.
    + revert I. apply ink_kept; cbn; [now rewrite C|].
      unfold attached. cbn. now rewrite C, X.
  - apply ink_clear. unfold maskClear. cbn. now rewrite C.
Qed.

Lemma conclude_ink op call c w :
  inkThroughContext w -> inkThroughContext (conclude op call c w).
Proof.
  intros I.
  destruct (settle_cases op c) as [(bytes & _ & S)|(message & _ & S & _)].
  - rewrite (conclude_returned _ _ _ _ _ S).
    destruct op; try (revert I; apply ink_refs; reflexivity).
    rewrite exec_onSuccess_inpaint.
    match goal with
    | |- context [exec clearCanvas ?s] =>
        assert (K : inkThroughContext s)
          by (revert I; apply ink_refs; reflexivity);
        apply clearCanvas_clears in K;
        set (s1 := exec clearCanvas s) in *
    end.
    apply ink_clear. exact K.
  - rewrite (conclude_threw _ _ _ _ _ S).
    revert I. apply ink_refs; reflexivity.
Qed.

Lemma handler_ink ai toDataURL op w :
  inkThroughContext w ->
  inkThroughContext (exec (handler ai toDataURL op) w).
Proof.
  intros I. rewrite handler_exec.
  destruct (callOf toDataURL op w); [now apply conclude_ink | exact I].
Qed.

Lemma setCanvasDimensions_clears w :
  inkThroughContext w -> inkThroughContext (exec setCanvasDimensions w).
Proof.
  intros I. rewrite exec_setCanvasDimensions.
  destruct (imageRef w); [|exact I].
  destruct (canvasRef w); [|exact I].
  apply ink_clear. unfold maskClear. cbn. apply Blank_blank.
Qed.

(** Every event keeps the invariant. *)
Lemma fire_ink toDataURL strokeCovers ai e w :
  inkThroughContext w ->
  inkThroughContext (fire toDataURL strokeCovers ai e w).
Proof.
  intros I. unfold fire.
  destruct e; cbn [handlerOf];
    try (revert I; apply ink_refs; reflexivity).
  - now apply (handler_ink ai toDataURL Generate).
  - now apply (handler_ink ai toDataURL Inpaint).
  - apply ink_clear. now apply clearCanvas_clears.
  - now apply (handler_ink ai toDataURL RegenerateScene).
  - now apply (handler_ink ai toDataURL AddText).
  - rewrite exec_startDrawing.
    destruct (contextRef w) as [x|] eqn:X; [|exact I].
    revert I. apply ink_kept; [reflexivity|].
    unfold attached. cbn. now rewrite X.
  - rewrite exec_stopDrawing.
    destruct (contextRef w) as [x|] eqn:X; [|exact I].
    revert I. apply ink_kept; [reflexivity|].
    unfold attached. cbn. rewrite X.
    destruct (canvasRef w); [|reflexivity].
    unfold closePath. now destruct (rev (path x)) as [|[|? [|? ?]] ?].
  - rewrite exec_stopDrawing.
    destruct (contextRef w) as [x|] eqn:X; [|exact I].
    revert I. apply ink_kept; [reflexivity|].
    unfold attached. cbn. rewrite X.
    destruct (canvasRef w); [|reflexivity].
    unfold closePath. now destruct (rev (path x)) as [|[|? [|? ?]] ?].
  - now apply draw_ink.
  - apply ink_clear. unfold maskClear. cbn. apply Blank_blank.
  - apply ink_clear. exact Logic.I.
  - rewrite exec_canvasEffect.
    destruct (mode (core w)); [exact I|].
    destruct (canvasRef w); [|exact I].
    destruct (imageRef w); [|exact I].
    destruct (_ && _); [now apply setCanvasDimensions_clears | exact I].
  - now apply setCanvasDimensions_clears.
Qed.

(** ** The state a handler leaves *)

Lemma canvasRef_clearCanvas_refs w s :
  canvasRef s = canvasRef w -> contextRef s = contextRef w ->
  canvasRef (exec clearCanvas s) = canvasRef (exec clearCanvas w).
Proof.
  intros C X. rewrite !exec_clearCanvas, C, X.
  destruct (canvasRef w) as [c|] eqn:Cw; [|now rewrite C].
  destruct (contextRef w) as [x|]; [|now rewrite C].
  unfold onCanvasOf. rewrite C, Cw.
  destruct (Nat.eqb _ _); [reflexivity | now rewrite C].
Qed.

(** After a success: the new image, no error, isLoading false, the input of
    the operation emptied and, for an inpaint, the canvas cleared. *)
Lemma conclude_success op call c w bytes :
  firstImageBytes c = Some bytes ->
  conclude op call c w =
    mkWorld
      (mkCore (match op with Generate => edit | _ => mode (core w) end)
         false None (Some (dataUri bytes)))
      (generation w)
      (editing (exec (match op with
                      | Generate => ret tt
                      | Inpaint => setInpaintPrompt ""
                      | RegenerateScene => setNewScenePrompt ""
                      | AddText => setTextContent ""
                      end) w))
      (match op with
       | Inpaint => canvasRef (exec clearCanvas w)
       | _ => canvasRef w
       end)
      (imageRef w) (contextRef w) (network w ++ [requestOf call])%list
      (elements w).
Proof.
  intros F. rewrite (conclude_returned _ _ _ _ _ (settle_returned op c _ F)).
  destruct op; try reflexivity.
  rewrite exec_onSuccess_inpaint.
  match goal with
  | |- context [exec clearCanvas ?s] =>
      pose proof (clearCanvas_frame s) as K;
      pose proof (canvasRef_clearCanvas_refs w s eq_refl eq_refl) as R;
      destruct (exec clearCanvas s) as [co g ed cr ir xr n el]
  end.
  cbn in K, R. destruct K as (-> & -> & -> & -> & -> & -> & ->).
  rewrite R. reflexivity.
Qed.

(** ** Reachable states *)

Lemma inMode_true m w : inMode m w = true -> mode (core w) = m.
Proof. unfold inMode. now destruct (mode (core w)), m. Qed.

Lemma tab_kept w w' :
  mode (core w') = mode (core w) ->
  editModeTab (editing w') = editModeTab (editing w) ->
  tabReset w -> tabReset w'.
Proof. unfold tabReset. now intros -> ->. Qed.

Lemma handler_tabReset ai toDataURL op w :
  tabReset w -> tabReset (exec (handler ai toDataURL op) w).
Proof.
  intros T. rewrite handler_exec.
  destruct (callOf toDataURL op w) as [call|]; [|exact T].
  destruct (settle_cases op (ai (requestOf call)))
    as [(bytes & F & _)|(message & _ & S & _)].
  - rewrite (conclude_success _ _ _ _ _ F).
    destruct op; try (revert T; apply tab_kept; reflexivity).
    intros M. discriminate M.
  - rewrite (conclude_threw _ _ _ _ _ S).
    revert T. apply tab_kept; reflexivity.
Qed.

Lemma fire_tabReset toDataURL strokeCovers ai e w :
  tabReset w -> enabled e w = true ->
  tabReset (fire toDataURL strokeCovers ai e w).
Proof.
  intros T E. unfold fire.
  destruct e; cbn [handlerOf];
    try (revert T; apply tab_kept; reflexivity).
  - now apply (handler_tabReset ai toDataURL Generate).
  - cbn in E. apply inMode_true in E. intros M. cbn in M. congruence.
  - now apply (handler_tabReset ai toDataURL Inpaint).
  - revert T. apply tab_kept;
      [now destruct (clearCanvas_frame w) as (-> & _)
      |now destruct (clearCanvas_frame w) as (_ & _ & -> & _)].
  - now apply (handler_tabReset ai toDataURL RegenerateScene).
  - now apply (handler_tabReset ai toDataURL AddText).
  - intros M. reflexivity.
  - rewrite exec_startDrawing. destruct (contextRef w); [|exact T].
    revert T. apply tab_kept; reflexivity.
  - rewrite exec_stopDrawing. destruct (contextRef w); [|exact T].
    revert T. apply tab_kept; reflexivity.
  - rewrite exec_stopDrawing. destruct (contextRef w); [|exact T].
    revert T. apply tab_kept; reflexivity.
  - rewrite exec_draw. destruct (isDrawing (editing w)); [|exact T].
    destruct (contextRef w); [|exact T].
    unfold onCanvasOf. cbn [canvasRef withContextRef].
    destruct (canvasRef w); [|revert T; apply tab_kept; reflexivity].
    destruct (Nat.eqb _ _); revert T; apply tab_kept; reflexivity.
  - rewrite exec_canvasEffect.
    destruct (mode (core w)) eqn:M; [exact T|].
    destruct (canvasRef w) eqn:C; [|exact T].
    destruct (imageRef w) eqn:Im; [|exact T].
    destruct (_ && _); [|exact T].
    rewrite exec_setCanvasDimensions, Im, C.
    intros M'. cbn in M'. congruence.
  - rewrite exec_setCanvasDimensions.
    destruct (imageRef w); [|exact T]. destruct (canvasRef w); [|exact T].
    revert T. apply tab_kept; reflexivity.
Qed.

Lemma initial_invariants :
  tabReset initialWorld /\ inkThroughContext initialWorld.
Proof. split; [intros _; reflexivity | intros _; exact I]. Qed.

Lemma reachable_invariants toDataURL strokeCovers w :
  reachable toDataURL strokeCovers w -> tabReset w /\ inkThroughContext w.
Proof.
  induction 1 as [|ai e w R [T K] E].
  - exact initial_invariants.
  - split; [now apply fire_tabReset | now apply fire_ink].
Qed.

(** C5.  From a reachable state in generate mode with no image, a generate
    whose request is answered with an image ends in edit mode on the inpaint
    tab, with that image as the current one and isLoading false. *)
Theorem successful_generate_enters_editing
  toDataURL strokeCovers ai (w : World) (req : Params.t) (bytes : string) :
  reachable toDataURL strokeCovers w ->
  mode (core w) = generate ->
  imageUrl (core w) = None ->
  issues (handleGenerate ai) w req ->
  firstImageBytes (ai req) = Some bytes ->
  let w' := exec (handleGenerate ai) w in
  mode (core w') = edit
  /\ editModeTab (editing w') = inpaint
  /\ imageUrl (core w') = Some ("data:image/jpeg;base64," ++ bytes)
  /\ isLoading (core w') = false.
Proof.
  intros R M N I F. cbv zeta.
  destruct (reachable_invariants _ _ _ R) as [T _].
  change (handleGenerate ai) with (handler ai toDataURL Generate) in *.
  destruct (issues_callOf _ _ _ _ _ I) as (call & C & <-).
  rewrite handler_exec, C, (conclude_success _ _ _ _ _ F). cbn.
  repeat split. now apply T.
Qed.

(** The invariant on ink holds after any further events, whether or not
    the controls that produce them are on screen. *)
Lemma events_ink toDataURL strokeCovers ai (events : list Event) w :
  inkThroughContext w ->
  inkThroughContext
    (fold_left (fun s e => fire toDataURL strokeCovers ai e s) events w).
Proof.
  revert w. induction events as [|e events IH]; intros w K; [exact K|].
  cbn [fold_left]. apply IH. now apply fire_ink.
Qed.

(** C9.  Take a reachable state and let any events follow, strokes of any
    number among them.  If the state then has a canvas, clearCanvas leaves
    that canvas with the same dimensions and an empty raster. *)
Theorem clear_canvas_empties_mask
  toDataURL strokeCovers ai (w : World) (strokes : list Event)
  (c : HTMLCanvasElement) :
  reachable toDataURL strokeCovers w ->
  let drawn :=
    fold_left (fun s e => fire toDataURL strokeCovers ai e s) strokes w in
  canvasRef drawn = Some c ->
  exists c',
    canvasRef (exec clearCanvas drawn) = Some c'
    /\ width c' = width c /\ height c' = height c
    /\ Blank c'.
Proof.
  intros R drawn C.
  destruct (reachable_invariants _ _ _ R) as [_ K].
  apply (events_ink toDataURL strokeCovers ai strokes) in K. fold drawn in K.
  destruct (clearCanvas_size drawn c C) as (c' & C' & _ & W & H).
  exists c'. repeat split; try assumption.
  apply clearCanvas_clears in K. unfold maskClear in K. now rewrite C' in K.
Qed.

(** ** Sample sessions *)

Lemma drawnWorld_reachable : reachable samplePng squareBrush drawnWorld.
Proof.
  unfold drawnWorld, drawnEvents. cbn [fold_left].
  repeat (apply reachable_fire; [|vm_compute; reflexivity]).
  apply reachable_initial.
Qed.

(** A mask with ink on a pixel of its bitmap is not clear. *)
Lemma inked_not_clear w c x y :
  canvasRef w = Some c ->
  (0 <= x < width c)%Z -> (0 <= y < height c)%Z -> pixels c x y = true ->
  ~ maskClear w.
Proof.
  unfold maskClear. intros -> X Y P B. rewrite (B x y X Y) in P.
  discriminate P.
Qed.

Ltac inked_at x y :=
  eapply (inked_not_clear _ _ x y);
  [vm_compute; reflexivity | cbn; lia | cbn; lia | vm_compute; reflexivity].

Lemma drawnWorld_inked : ~ maskClear drawnWorld.
Proof. inked_at 1%Z 1%Z. Qed.



(** ** The properties at sample inputs *)



(** The first generate, answered with an image. *)
Lemma successful_generate_witness :
  let w' := exec (handleGenerate (answering "AAAA")) initialWorld in
  mode (core w') = edit
  /\ editModeTab (editing w') = inpaint
  /\ imageUrl (core w') = Some "data:image/jpeg;base64,AAAA"
  /\ isLoading (core w') = false.
Proof.
  apply (successful_generate_enters_editing samplePng squareBrush
           (answering "AAAA") initialWorld initialRequest "AAAA").
  - apply reachable_initial.
  - reflexivity.
  - reflexivity.
  - vm_compute. reflexivity.
  - reflexivity.
Defined.


(** Clearing after the events that lead to the session with a stroke. *)
Lemma clear_canvas_witness :
  ~ maskClear drawnWorld
  /\ exists c',
       canvasRef (exec clearCanvas drawnWorld) = Some c'
       /\ width c' = 4%Z /\ height c' = 4%Z /\ Blank c'.
Proof.
  split; [exact drawnWorld_inked|].
  destruct (clear_canvas_empties_mask samplePng squareBrush
              (answering "AAAA") initialWorld drawnEvents
              (mkCanvas 0 4 4
                 (fun px py =>
                    blank px py
                    || squareBrush
                         (mkContext 0 "round" "white" 40 [[(1, 1); (2, 2)]])%Z
                         px py))
              (reachable_initial samplePng squareBrush) eq_refl)
    as (c' & C & W & H & B).
  exists c'. repeat split; assumption.
Defined.


(** The attributes the form starts with have both optional sentences. *)
Lemma initial_prompt_contents_witness :
  Occurs " The influencer should appear to be around 25 years old."
    (fullPrompt initialAttributes)
  /\ Occurs
       " The image's color palette should be dominated by shades of Neon Pink."
       (fullPrompt initialAttributes).
Proof.
  destruct (initial_prompt_contents initialAttributes)
    as (_ & _ & _ & _ & _ & A & _ & C & _).
  split; [apply A | apply C]; discriminate.
Defined.

(** The edits in the initial state, and add-text with no text typed. *)
Lemma edits_without_image_witness :
  exec (handleApplyInpaint (answering "AAAA") samplePng) initialWorld
  = initialWorld
  /\ exec (handleGenerateNewScene (answering "AAAA")) initialWorld
     = initialWorld
  /\ exec (handleApplyText (answering "AAAA")) initialWorld = initialWorld
  /\ exec (handleApplyText (answering "AAAA")) drawnWorld = drawnWorld.
Proof.
  destruct (edits_without_image_are_no_ops (answering "AAAA") samplePng
              initialWorld) as (N & _).
  destruct (N eq_refl) as (A & B & C).
  destruct (edits_without_image_are_no_ops (answering "AAAA") samplePng
              drawnWorld) as (_ & T).
  split; [exact A|]. split; [exact B|]. split; [exact C|].
  apply T. reflexivity.
Defined.

(** * Further properties of the code *)

(** ** Data URLs *)

Lemma split_before_comma (a rest : string) :
  ~ Occurs "," a -> split comma (a ++ "," ++ rest) = a :: split comma rest.
Proof.
  change ("," ++ rest) with (String comma rest).
  induction a as [|ch a IH]; intros N; [reflexivity|].
  cbn [append split]. destruct (Ascii.eqb ch comma) eqn:E.
  - apply Ascii.eqb_eq in E. subst ch. elim N. now exists "", a.
  - rewrite IH; [reflexivity|].
    intros (before & after' & ->). apply N.
    now exists (String ch before), after'.
Qed.

(** X1.  getBase64FromDataUrl gives the text between the first comma and the
    second one, or the end: nothing for a URL without comma, and the bytes a
    data URI of the service was built from. *)
Theorem getBase64FromDataUrl_pieces (a b : string) :
  ~ Occurs "," a -> ~ Occurs "," b ->
  getBase64FromDataUrl a = None
  /\ getBase64FromDataUrl (a ++ "," ++ b) = Some b
  /\ (forall c, getBase64FromDataUrl (a ++ "," ++ b ++ "," ++ c) = Some b)
  /\ getBase64FromDataUrl (dataUri b) = Some b.
Proof.
  intros A B. unfold getBase64FromDataUrl. repeat split.
  - now rewrite split_without.
  - now rewrite split_before_comma, split_without.
  - intros c. now rewrite !split_before_comma.
  - now apply getBase64FromDataUrl_roundtrip.
Qed.

(** ** What a request carries *)

Lemma truthy_dataUri bytes : truthy (dataUri bytes) = true.
Proof. reflexivity. Qed.

(** X2.  An edit sends the bytes of the current image as its JPEG reference
    image; an inpaint sends the encoded canvas as its PNG mask as well, and
    no other operation sends a mask; a generate sends neither. *)
Theorem edits_send_current_image
  ai toDataURL (op : Operation) (w : World) (req : Params.t) (bytes : string) :
  issues (handler ai toDataURL op) w req ->
  imageUrl (core w) = Some (dataUri bytes) ->
  ~ Occurs "," bytes ->
  match op with
  | Generate => Params.image req = None /\ Params.mask req = None
  | Inpaint =>
      Params.image req = Some (ImageInput.mk (Some bytes) "image/jpeg")
      /\ exists current,
           canvasRef w = Some current
           /\ Params.mask req
              = Some (ImageInput.mk
                        (getBase64FromDataUrl (toDataURL current))
                        "image/png")
  | RegenerateScene | AddText =>
      Params.image req = Some (ImageInput.mk (Some bytes) "image/jpeg")
      /\ Params.mask req = None
  end.
Proof.
  intros I U N.
  destruct (issues_callOf _ _ _ _ _ I) as (call & C & <-).
  pose proof (getBase64FromDataUrl_roundtrip bytes N) as B.
  destruct op; cbn [callOf] in C; rewrite ?U, ?truthy_dataUri, ?B in C.
  - injection C as <-. now split.
  - destruct (canvasRef w) as [current|]; [|discriminate C].
    injection C as <-. split; [reflexivity|]. now exists current.
  - injection C as <-. now split.
  - destruct (truthy (textContent (editing w))); [|discriminate C].
    injection C as <-. now split.
Qed.

(** X3.  Every request names the same model, asks for one JPEG image, and
    carries what the form holds: the composed prompt of the operation, and
    the aspect ratio of the generation form for a generate and for a new
    scene, none for an inpaint and for an add-text.  The inpaint prompt is
    sent as it was typed. *)
Theorem requests_carry_form_values
  ai toDataURL (op : Operation) (w : World) (req : Params.t) :
  issues (handler ai toDataURL op) w req ->
  Params.model req = "imagen-3.0-generate-002"
  /\ Config.numberOfImages (Params.config req) = 1
  /\ Config.outputMimeType (Params.config req) = "image/jpeg"
  /\ match op with
     | Generate =>
         Params.prompt req
         = fullPrompt
             (GenerateImageOptions.mk (prompt (generation w))
                (aspectRatio (generation w)) (style (generation w))
                (age (generation w)) (dominantColor (generation w))
                (ethnicity (generation w)))
         /\ Config.aspectRatio (Params.config req)
            = Some (aspectRatio (generation w))
     | Inpaint =>
         Params.prompt req = inpaintPrompt (editing w)
         /\ Config.aspectRatio (Params.config req) = None
     | RegenerateScene =>
         Params.prompt req = scenePrompt (newScenePrompt (editing w))
         /\ Config.aspectRatio (Params.config req)
            = Some (aspectRatio (generation w))
     | AddText =>
         Params.prompt req
         = textPrompt (textContent (editing w)) (textLanguage (editing w))
         /\ Config.aspectRatio (Params.config req) = None
     end.
Proof.
  intros I.
  destruct (issues_callOf _ _ _ _ _ I) as (call & C & <-).
  destruct op; cbn [callOf] in C.
  - injection C as <-. now repeat split.
  - destruct (imageUrl (core w)) as [url|]; [|discriminate C].
    destruct (canvasRef w); [|discriminate C].
    destruct (truthy url); [|discriminate C].
    injection C as <-. now repeat split.
  - destruct (imageUrl (core w)) as [url|]; [|discriminate C].
    destruct (truthy url); [|discriminate C].
    injection C as <-. now repeat split.
  - destruct (imageUrl (core w)) as [url|]; [|discriminate C].
    destruct (truthy url && truthy (textContent (editing w)));
      [|discriminate C].
    injection C as <-. now repeat split.
Qed.

Lemma Occurs_refl (t : string) : Occurs t t.
Proof. exists "", "". now rewrite append_empty_r. Qed.

Lemma Occurs_after (a t s : string) : Occurs t s -> Occurs t (a ++ s).
Proof.
  intros (p & q & ->). exists (a ++ p), q. now rewrite append_assoc.
Qed.

Lemma Occurs_before (b t s : string) : Occurs t s -> Occurs t (s ++ b).
Proof.
  intros (p & q & ->). exists p, (q ++ b). now rewrite !append_assoc.
Qed.

(** X4.  The prompts of a new scene and of an add-text hold the user's text
    as typed, between double quotes, and the add-text prompt names the
    language; what the prompts add to the user's text does not depend on
    it. *)
Theorem edit_prompts_quote_user_text (prompt language : string) :
  Occurs (dquote ++ prompt ++ dquote) (scenePrompt prompt)
  /\ Occurs (dquote ++ prompt ++ dquote) (textPrompt prompt language)
  /\ Occurs ("The text is in " ++ language ++ " language.")
       (textPrompt prompt language)
  /\ String.length (scenePrompt prompt)
     = String.length (scenePrompt "") + String.length prompt
  /\ String.length (textPrompt prompt language)
     = String.length (textPrompt "" "") + String.length prompt
       + String.length language.
Proof.
  split; [|split; [|split; [|split]]].
  - unfold scenePrompt. apply Occurs_after, Occurs_refl.
  - unfold textPrompt. do 3 apply Occurs_after.
    replace (dquote ++ prompt ++ dquote ++ newline ++ "The text is in "
             ++ language ++ " language.")
      with ((dquote ++ prompt ++ dquote)
            ++ newline ++ "The text is in " ++ language ++ " language.")
      by now rewrite !append_assoc.
    apply Occurs_before, Occurs_refl.
  - unfold textPrompt. do 7 apply Occurs_after. apply Occurs_refl.
  - unfold scenePrompt. rewrite !length_append. cbn [String.length dquote].
    lia.
  - unfold textPrompt. rewrite !length_append.
    cbn [String.length dquote newline]. lia.
Qed.

(** ** Errors *)

Lemma settle_never_other op c v : settle op c <> Threw (NonError v).
Proof.
  destruct c as [response|[message|shown]]; cbn [settle];
    [destruct (firstImageBytes _)|..]; discriminate.
Qed.

(** X5.  The four functions of the service only ever throw Error objects.
    When the provider rejects a request with an Error, the handler shows its
    message behind the prefix of the operation; when it rejects with another
    value, the handler shows the operation's unknown-error text.  The
    fallback text of the handlers themselves is never shown. *)
Theorem provider_error_reaches_user
  ai toDataURL (op : Operation) (w : World) (req : Params.t) :
  issues (handler ai toDataURL op) w req ->
  let w' := exec (handler ai toDataURL op) w in
  (forall message, ai req = Threw (ErrorObj message) ->
     error (core w') = Some (failurePrefix op ++ message))
  /\ (forall shown, ai req = Threw (NonError shown) ->
        error (core w') = Some (unknownFailure op))
  /\ error (core w') <> Some "An unexpected error occurred."
  /\ (forall call net shown,
        eval (perform ai call) net <> Threw (NonError shown)).
Proof.
  intros I. cbv zeta.
  destruct (issues_callOf _ _ _ _ _ I) as (call & C & <-).
  rewrite handler_exec, C.
  split; [|split; [|split]].
  - intros message E.
    now rewrite (conclude_threw op call _ w (failurePrefix op ++ message))
      by now rewrite E.
  - intros shown E.
    now rewrite (conclude_threw op call _ w (unknownFailure op))
      by now rewrite E.
  - destruct (firstImageBytes (ai (requestOf call))) as [bytes|] eqn:F.
    + rewrite (conclude_success _ _ _ _ _ F). discriminate.
    + destruct (ai (requestOf call)) as [response|[message|shown]] eqn:E.
      * rewrite (conclude_threw op call _ w
                   (failurePrefix op ++ emptyResult op))
          by (cbn [settle]; now rewrite F).
        destruct op; discriminate.
      * rewrite (conclude_threw op call _ w (failurePrefix op ++ message))
          by reflexivity.
        destruct op; discriminate.
      * rewrite (conclude_threw op call _ w (unknownFailure op))
          by reflexivity.
        destruct op; discriminate.
  - intros call' net shown. rewrite eval_perform. apply settle_never_other.
Qed.

(** ** Successful operations *)


(** ** The mode, the image and the requests of a session *)

Lemma core_kept w w' : core w' = core w -> settled w -> settled w'.
Proof. unfold settled. now intros ->. Qed.

Lemma handler_settled ai toDataURL op w :
  settled w -> settled (exec (handler ai toDataURL op) w).
Proof.
  intros S. rewrite handler_exec.
  destruct (callOf toDataURL op w) as [call|] eqn:C; [|exact S].
  destruct S as (L & S).
  destruct (settle_cases op (ai (requestOf call)))
    as [(bytes & F & _)|(message & _ & T & _)].
  - rewrite (conclude_success _ _ _ _ _ F). split; [reflexivity|].
    right. cbn. split; [|now exists bytes].
    destruct op; try reflexivity;
      (destruct S as [(_ & N)|(E & _)]; [|exact E]);
      cbn [callOf] in C; rewrite N in C; discriminate C.
  - rewrite (conclude_threw _ _ _ _ _ T). split; [reflexivity|exact S].
Qed.

Lemma fire_core toDataURL strokeCovers ai e w :
  startsOperation e = false -> e <> ClickStartOver ->
  core (fire toDataURL strokeCovers ai e w) = core w.
Proof.
  intros O N. unfold fire.
  destruct e; try discriminate O; try (now elim N); cbn [handlerOf];
    try reflexivity.
  - now destruct (clearCanvas_frame w) as (-> & _).
  - rewrite exec_startDrawing. now destruct (contextRef w).
  - rewrite exec_stopDrawing. now destruct (contextRef w).
  - rewrite exec_stopDrawing. now destruct (contextRef w).
  - rewrite exec_draw. destruct (isDrawing (editing w)); [|reflexivity].
    destruct (contextRef w); [|reflexivity].
    unfold onCanvasOf. cbn [canvasRef withContextRef].
    destruct (canvasRef w); [|reflexivity]. now destruct (Nat.eqb _ _).
  - rewrite exec_canvasEffect. destruct (mode (core w)); [reflexivity|].
    destruct (canvasRef w) eqn:C; [|reflexivity].
    destruct (imageRef w) eqn:Im; [|reflexivity].
    destruct (_ && _); [|reflexivity].
    now rewrite exec_setCanvasDimensions, Im, C.
  - rewrite exec_setCanvasDimensions.
    destruct (imageRef w); [|reflexivity]. now destruct (canvasRef w).
Qed.

Lemma fire_settled toDataURL strokeCovers ai e w :
  settled w -> settled (fire toDataURL strokeCovers ai e w).
Proof.
  intros S.
  destruct (startsOperation e) eqn:O.
  - unfold fire. destruct e; try discriminate O; cbn [handlerOf].
    + now apply (handler_settled ai toDataURL Generate).
    + now apply (handler_settled ai toDataURL Inpaint).
    + now apply (handler_settled ai toDataURL RegenerateScene).
    + now apply (handler_settled ai toDataURL AddText).
  - destruct e; try (revert S; apply core_kept, fire_core;
                     [exact O | discriminate]).
    split; [reflexivity|]. left. now split.
Qed.

(** X7.  In every state a session can reach no request is pending
    (isLoading is false), and the mode goes with the image: in generate mode
    there is no image, and in edit mode the image is a JPEG data URI built by
    the service. *)
Theorem reachable_mode_follows_image
  toDataURL strokeCovers (w : World) :
  reachable toDataURL strokeCovers w ->
  isLoading (core w) = false
  /\ ((mode (core w) = generate /\ imageUrl (core w) = None)
      \/ (mode (core w) = edit
          /\ exists bytes,
               imageUrl (core w) = Some ("data:image/jpeg;base64," ++ bytes))).
Proof.
  change (reachable toDataURL strokeCovers w -> settled w).
  induction 1 as [|ai e w R S E].
  - split; [reflexivity|]. left. now split.
  - now apply fire_settled.
Qed.

(** X16.  Only the four operation buttons and Start Over touch the mode,
    the loading flag, the error and the image: typing, switching tabs,
    drawing, clearing the mask and what the browser does to the refs leave
    all four as they were, so an error stays on screen until the next
    operation or a start over. *)
Theorem other_events_keep_core
  toDataURL strokeCovers ai (e : Event) (w : World) :
  startsOperation e = false ->
  e <> ClickStartOver ->
  let w' := fire toDataURL strokeCovers ai e w in
  mode (core w') = mode (core w)
  /\ isLoading (core w') = isLoading (core w)
  /\ error (core w') = error (core w)
  /\ imageUrl (core w') = imageUrl (core w).
Proof.
  intros O N. cbv zeta. now rewrite fire_core.
Qed.

Lemma network_kept toDataURL strokeCovers ai e w :
  startsOperation e = false ->
  network (fire toDataURL strokeCovers ai e w) = network w.
Proof.
  intros O. unfold fire.
  destruct e; try discriminate O; cbn [handlerOf]; try reflexivity.
  - now destruct (clearCanvas_frame w) as (_ & _ & _ & _ & _ & -> & _).
  - rewrite exec_startDrawing. now destruct (contextRef w).
  - rewrite exec_stopDrawing. now destruct (contextRef w).
  - rewrite exec_stopDrawing. now destruct (contextRef w).
  - rewrite exec_draw. destruct (isDrawing (editing w)); [|reflexivity].
    destruct (contextRef w); [|reflexivity].
    unfold onCanvasOf. cbn [canvasRef withContextRef].
    destruct (canvasRef w); [|reflexivity]. now destruct (Nat.eqb _ _).
  - rewrite exec_canvasEffect. destruct (mode (core w)); [reflexivity|].
    destruct (canvasRef w) eqn:C; [|reflexivity].
    destruct (imageRef w) eqn:Im; [|reflexivity].
    destruct (_ && _); [|reflexivity].
    now rewrite exec_setCanvasDimensions, Im, C.
  - rewrite exec_setCanvasDimensions.
    destruct (imageRef w); [|reflexivity]. now destruct (canvasRef w).
Qed.

Lemma handler_network ai toDataURL op w :
  exec (handler ai toDataURL op) w = w
  \/ exists req, issues (handler ai toDataURL op) w req.
Proof.
  unfold issues. rewrite handler_exec.
  destruct (callOf toDataURL op w) as [call|]; [right|now left].
  exists (requestOf call). apply network_conclude.
Qed.

Lemma fire_network toDataURL strokeCovers ai e w :
  exists sent,
    network (fire toDataURL strokeCovers ai e w) = (network w ++ sent)%list
    /\ List.length sent <= (if startsOperation e then 1 else 0).
Proof.
  destruct (startsOperation e) eqn:O.
  - assert (H : exists op,
               fire toDataURL strokeCovers ai e w
               = exec (handler ai toDataURL op) w).
    { destruct e; try discriminate O;
        [exists Generate | exists Inpaint | exists RegenerateScene
        | exists AddText]; reflexivity. }
    destruct H as (op & ->).
    destruct (handler_network ai toDataURL op w) as [->|(req & I)].
    + exists []. rewrite app_nil_r. split; [reflexivity | cbn; lia].
    + exists [req]. split; [exact I | reflexivity].
  - exists []. rewrite app_nil_r.
    split; [now apply network_kept | cbn; lia].
Qed.

(** X8.  Whatever events follow one another, the requests sent so far are
    kept in order and each event adds at most one: there are never more
    requests than clicks on the four operation buttons, so nothing is sent
    twice or retried. *)
Theorem requests_only_grow_one_per_click
  toDataURL strokeCovers ai (events : list Event) (w : World) :
  exists sent,
    network (after toDataURL strokeCovers ai events w)
    = (network w ++ sent)%list
    /\ List.length sent
       <= List.length (filter startsOperation events).
Proof.
  revert w. induction events as [|e events IH]; intros w.
  - exists []. rewrite app_nil_r. split; [reflexivity | cbn; lia].
  - change (after toDataURL strokeCovers ai (e :: events) w)
      with (after toDataURL strokeCovers ai events
              (fire toDataURL strokeCovers ai e w)).
    destruct (fire_network toDataURL strokeCovers ai e w) as (s1 & N1 & L1).
    destruct (IH (fire toDataURL strokeCovers ai e w)) as (s2 & N2 & L2).
    exists (s1 ++ s2)%list. rewrite N2, N1, <- app_assoc.
    split; [reflexivity|]. rewrite length_app. cbn [filter].
    destruct (startsOperation e); cbn [List.length]; lia.
Qed.

(** X9.  In a reachable state, a click on an enabled Generate, Generate New
    Scene or Add Text button always sends exactly one request, and so does a
    click on an enabled Apply Edit button when the canvas is mounted; without
    the canvas that click changes nothing. *)
Theorem enabled_click_sends_one_request
  toDataURL strokeCovers ai (e : Event) (w : World) :
  reachable toDataURL strokeCovers w ->
  startsOperation e = true ->
  enabled e w = true ->
  let w' := fire toDataURL strokeCovers ai e w in
  match e with
  | ClickApplyEdit =>
      (canvasRef w <> None ->
       exists req, network w' = (network w ++ [req])%list)
      /\ (canvasRef w = None -> w' = w)
  | _ => exists req, network w' = (network w ++ [req])%list
  end.
Proof.
  intros R O E. cbv zeta.
  destruct (reachable_mode_follows_image _ _ _ R) as (_ & S).
  assert (U : enabled e w = true -> e <> ClickGenerate ->
              exists bytes, imageUrl (core w) = Some (dataUri bytes)).
  { intros _ N. destruct S as [(M & _)|(_ & B)]; [|exact B].
    destruct e; try discriminate O; try (now elim N); cbn in E;
      unfold onTab, inMode in E; rewrite M in E; discriminate E. }
  unfold fire.
  destruct e; try discriminate O; cbn [handlerOf].
  - change (handleGenerate ai) with (handler ai toDataURL Generate).
    rewrite handler_exec. cbn [callOf]. eexists. apply network_conclude.
  - destruct (U E) as (bytes & B); [discriminate|].
    change (handleApplyInpaint ai toDataURL)
      with (handler ai toDataURL Inpaint).
    rewrite handler_exec. cbn [callOf]. rewrite B, truthy_dataUri.
    destruct (canvasRef w) as [current|].
    + split; [|discriminate]. intros _. eexists. apply network_conclude.
    + split; [intros N; now elim N | reflexivity].
  - destruct (U E) as (bytes & B); [discriminate|].
    change (handleGenerateNewScene ai)
      with (handler ai toDataURL RegenerateScene).
    rewrite handler_exec. cbn [callOf]. rewrite B, truthy_dataUri.
    eexists. apply network_conclude.
  - destruct (U E) as (bytes & B); [discriminate|].
    change (handleApplyText ai) with (handler ai toDataURL AddText).
    rewrite handler_exec. cbn [callOf]. rewrite B, truthy_dataUri.
    cbn in E. apply andb_true_iff in E. destruct E as (_ & T). rewrite T.
    eexists. apply network_conclude.
Qed.

(** ** Drawing *)

(** X10.  A mouse move never erases ink and never changes the canvas
    element or its size.  It leaves the whole state alone when no drag is
    under way or there is no context, and it leaves the mask alone when the
    context belongs to another canvas element. *)
Theorem draw_only_adds_ink
  strokeCovers (x y : Z) (w : World) (c : HTMLCanvasElement) :
  canvasRef w = Some c ->
  let w' := exec (draw strokeCovers x y) w in
  (exists c',
     canvasRef w' = Some c'
     /\ canvasId c' = canvasId c
     /\ width c' = width c /\ height c' = height c
     /\ forall px py, pixels c px py = true -> pixels c' px py = true)
  /\ (isDrawing (editing w) = false \/ contextRef w = None -> w' = w)
  /\ (attached w = false -> canvasRef w' = Some c).
Proof.
  intros C. cbv zeta. rewrite exec_draw. unfold attached. rewrite C.
  destruct (isDrawing (editing w)).
  - destruct (contextRef w) as [context|].
    + unfold onCanvasOf. cbn [canvasRef withContextRef lineTo canvas].
      rewrite C. destruct (Nat.eqb (canvasId c) (canvas context)).
      * split; [|split; [intros [H|H]; discriminate H | discriminate]].
        eexists. split; [reflexivity|]. cbn. repeat split.
        intros px py ->. reflexivity.
      * split; [|split; [intros [H|H]; discriminate H | now intros _]].
        exists c. now repeat split.
    + split; [exists c; now repeat split | now split].
  - split; [exists c; now repeat split | now split].
Qed.


(** X12.  A new brush size does not reach the context by itself: the
    context keeps its line width until the sizing effect runs again, and
    when it does, over a loaded image in edit mode, the context gets the new
    width and the mask drawn so far is emptied. *)
Theorem brush_size_change_empties_mask
  (w : World) (v : Z) (image : HTMLImageElement) (c : HTMLCanvasElement) :
  mode (core w) = edit ->
  canvasRef w = Some c ->
  imageRef w = Some image ->
  complete image = true ->
  naturalHeight image <> 0%Z ->
  contextRef (exec (setBrushSize v) w) = contextRef w
  /\ canvasRef (exec (setBrushSize v) w) = canvasRef w
  /\ let w' := exec canvasEffect (exec (setBrushSize v) w) in
     maskClear w'
     /\ attached w' = true
     /\ exists x, contextRef w' = Some x /\ lineWidth x = v.
Proof.
  intros M C Im L N. split; [reflexivity|]. split; [reflexivity|].
  destruct w as [[m l er u] g ed cr ir xr n el]. cbn in M, C, Im.
  subst m cr ir. cbv zeta. rewrite exec_canvasEffect.
  cbn [exec setBrushSize modify snd withEditing core canvasRef imageRef mode
       editing generation contextRef network elements].
  rewrite L.
  replace (naturalHeight image =? 0)%Z with false
    by (symmetry; now apply Z.eqb_neq).
  cbn [andb negb]. rewrite exec_setCanvasDimensions.
  cbn [imageRef canvasRef].
  split; [|split].
  - unfold maskClear. cbn. apply Blank_blank.
  - unfold attached. cbn. apply Nat.eqb_refl.
  - eexists. split; reflexivity.
Qed.

(** X13.  After a mouse up or a mouse leave, mouse moves draw nothing until
    the next mouse down; and while there is no context, none of the three
    drawing handlers changes anything. *)
Theorem drag_ends_at_mouse_up strokeCovers (x y : Z) (w : World) :
  exec (draw strokeCovers x y) (exec stopDrawing w) = exec stopDrawing w
  /\ (contextRef w = None ->
      exec (startDrawing x y) w = w
      /\ exec stopDrawing w = w
      /\ exec (draw strokeCovers x y) w = w).
Proof.
  split.
  - rewrite exec_draw, exec_stopDrawing.
    destruct (contextRef w) as [context|] eqn:X; [reflexivity|].
    rewrite X. now destruct (isDrawing (editing w)).
  - intros X. rewrite exec_startDrawing, exec_stopDrawing, exec_draw, X.
    now destruct (isDrawing (editing w)).
Qed.

(** ** Starting over and downloading *)

(** X14.  Starting over sends no request and does not clear the mask
    itself: the canvas and the context are left to React.  In the state it
    leaves, the canvas is not rendered, the Generate button is enabled, and
    no editing control, mouse event on the canvas or image event is. *)
Theorem start_over_leaves_generation_controls (w : World) :
  let w' := exec handleStartOver w in
  network w' = network w
  /\ canvasRef w' = canvasRef w
  /\ contextRef w' = contextRef w
  /\ canvasRendered w' = false
  /\ enabled ClickGenerate w' = true
  /\ forall e, enabled e w' = true -> availableWithoutImage e = true.
Proof.
  cbv zeta. rewrite exec_handleStartOver. repeat split.
  intros e. now destruct e.
Qed.

Lemma append_cancel_r (a b t : string) : a ++ t = b ++ t -> a = b.
Proof.
  revert b. induction a as [|ch a IH]; intros [|ch' b] E.
  - reflexivity.
  - apply (f_equal String.length) in E. cbn in E.
    rewrite length_append in E. lia.
  - apply (f_equal String.length) in E. cbn in E.
    rewrite length_append in E. lia.
  - cbn in E. injection E as -> E. f_equal. now apply IH.
Qed.

Lemma decimal_inj (n m : Z) : decimal n = decimal m -> n = m.
Proof.
  unfold decimal. intros E.
  assert (P : forall z, NilZero.int_of_string
                           (NilZero.string_of_int (Z.to_int z))
                         = Some (Z.to_int z)).
  { intros z. apply NilZero.isi; destruct z; cbn; try discriminate;
      intros [= H]; now apply DecimalPos.Unsigned.to_uint_nonnil in H. }
  apply DecimalZ.to_int_inj.
  pose proof (P n) as Pn. rewrite E, P in Pn. now injection Pn.
Qed.

(** X15.  There is no download without an image.  In a reachable state in
    edit mode the download is the current image, a JPEG data URI, under a
    name that ends in .jpeg, and downloads at different times get different
    names. *)
Theorem download_offers_current_image
  toDataURL strokeCovers (now : Z) (w : World) :
  reachable toDataURL strokeCovers w ->
  (imageUrl (core w) = None -> handleDownload now w = None)
  /\ (mode (core w) = edit ->
      exists bytes,
        handleDownload now w
        = Some (mkDownloadLink ("data:image/jpeg;base64," ++ bytes)
                  ("ai-influencer-" ++ decimal now ++ ".jpeg")))
  /\ (forall later l1 l2,
        handleDownload now w = Some l1 ->
        handleDownload later w = Some l2 ->
        download l1 = download l2 -> now = later).
Proof.
  intros R. destruct (reachable_mode_follows_image _ _ _ R) as (_ & S).
  split; [|split].
  - unfold handleDownload. now intros ->.
  - intros M. destruct S as [(G & _)|(_ & bytes & U)]; [congruence|].
    exists bytes. unfold handleDownload. now rewrite U.
  - intros later l1 l2. unfold handleDownload.
    destruct (imageUrl (core w)) as [url|]; [|discriminate].
    destruct (negb (truthy url)); [discriminate|].
    intros [= <-] [= <-]. cbn [download]. intros E.
    apply decimal_inj. injection E as E. now apply append_cancel_r in E.
Qed.

(** ** The further properties at sample inputs *)

(** The prefix of the service's data URIs and four bytes of base64. *)
Lemma getBase64FromDataUrl_witness :
  getBase64FromDataUrl "data:image/jpeg;base64" = None
  /\ getBase64FromDataUrl "data:image/jpeg;base64,AAAA" = Some "AAAA".
Proof.
  destruct (getBase64FromDataUrl_pieces "data:image/jpeg;base64" "AAAA")
    as (A & B & _).
  - apply not_includes_occurs. vm_compute. reflexivity.
  - apply not_includes_occurs. vm_compute. reflexivity.
  - split; [exact A | exact B].
Defined.

(** An inpaint from the session with a stroke. *)
Lemma edits_send_current_image_witness :
  Params.image drawnInpaintRequest
  = Some (ImageInput.mk (Some "AAAA") "image/jpeg")
  /\ exists current,
       canvasRef drawnWorld = Some current
       /\ Params.mask drawnInpaintRequest
          = Some (ImageInput.mk (getBase64FromDataUrl (samplePng current))
                    "image/png").
Proof.
  apply (edits_send_current_image (answering "BBBB") samplePng Inpaint
           drawnWorld drawnInpaintRequest "AAAA").
  - vm_compute. reflexivity.
  - reflexivity.
  - apply not_includes_occurs. vm_compute. reflexivity.
Defined.

(** A new scene from the session with a stroke. *)
Lemma requests_carry_form_values_witness :
  Params.model drawnSceneRequest = "imagen-3.0-generate-002"
  /\ Config.numberOfImages (Params.config drawnSceneRequest) = 1
  /\ Config.outputMimeType (Params.config drawnSceneRequest) = "image/jpeg"
  /\ Params.prompt drawnSceneRequest
     = scenePrompt (newScenePrompt (editing drawnWorld))
  /\ Config.aspectRatio (Params.config drawnSceneRequest)
     = Some (aspectRatio (generation drawnWorld)).
Proof.
  apply (requests_carry_form_values (answering "BBBB") samplePng
           RegenerateScene drawnWorld drawnSceneRequest).
  vm_compute. reflexivity.
Defined.

(** The first generate while the provider cannot be reached. *)
Lemma provider_error_witness :
  error (core (exec (handler unreachable samplePng Generate) initialWorld))
  = Some (failurePrefix Generate ++ "Failed to fetch").
Proof.
  destruct (provider_error_reaches_user unreachable samplePng Generate
              initialWorld initialRequest) as (A & _).
  - vm_compute. reflexivity.
  - apply A. reflexivity.
Defined.


(** The session with a stroke is in edit mode with an image. *)
Lemma reachable_mode_witness :
  isLoading (core drawnWorld) = false
  /\ ((mode (core drawnWorld) = generate /\ imageUrl (core drawnWorld) = None)
      \/ (mode (core drawnWorld) = edit
          /\ exists bytes,
               imageUrl (core drawnWorld)
               = Some ("data:image/jpeg;base64," ++ bytes))).
Proof.
  exact (reachable_mode_follows_image samplePng squareBrush drawnWorld
           drawnWorld_reachable).
Defined.

(** The first click on Generate. *)
Lemma enabled_click_witness :
  exists req,
    network (fire samplePng squareBrush (answering "AAAA") ClickGenerate
               initialWorld)
    = (network initialWorld ++ [req])%list.
Proof.
  apply (enabled_click_sends_one_request samplePng squareBrush
           (answering "AAAA") ClickGenerate initialWorld).
  - apply reachable_initial.
  - reflexivity.
  - reflexivity.
Defined.

(** One more mouse move in the session with a stroke. *)
Lemma draw_only_adds_ink_witness :
  exists c',
    canvasRef (exec (draw squareBrush 3 3) drawnWorld) = Some c'
    /\ canvasId c' = 0
    /\ width c' = 4%Z /\ height c' = 4%Z
    /\ forall px py, pixels drawnCanvas px py = true -> pixels c' px py = true.
Proof.
  destruct (draw_only_adds_ink squareBrush 3 3 drawnWorld drawnCanvas
              eq_refl) as (A & _).
  exact A.
Defined.


(** A larger brush chosen in the session with a stroke. *)
Lemma brush_size_change_witness :
  ~ maskClear drawnWorld
  /\ maskClear (exec canvasEffect (exec (setBrushSize 60) drawnWorld)).
Proof.
  split; [exact drawnWorld_inked|].
  destruct (brush_size_change_empties_mask drawnWorld 60
              (mkImage 4 4 true 4) drawnCanvas eq_refl eq_refl eq_refl
              eq_refl) as (_ & _ & A & _).
  - discriminate.
  - exact A.
Defined.

(** A download from the session with a stroke. *)
Lemma download_witness :
  exists bytes,
    handleDownload 1700000000000 drawnWorld
    = Some (mkDownloadLink ("data:image/jpeg;base64," ++ bytes)
              ("ai-influencer-" ++ decimal 1700000000000 ++ ".jpeg")).
Proof.
  destruct (download_offers_current_image samplePng squareBrush
              1700000000000 drawnWorld drawnWorld_reachable) as (_ & A & _).
  apply A. reflexivity.
Defined.

(** A mouse move in the session with a stroke, after a failed inpaint. *)
Lemma other_events_keep_core_witness :
  let w := exec (handler answeringNothing samplePng Inpaint) drawnWorld in
  let w' := fire samplePng squareBrush answeringNothing (MouseMove 3 3) w in
  error (core w') = error (core w) /\ error (core w) <> None.
Proof.
  cbv zeta. split.
  - destruct (other_events_keep_core samplePng squareBrush answeringNothing
                (MouseMove 3 3)
                (exec (handler answeringNothing samplePng Inpaint) drawnWorld))
      as (_ & _ & A & _).
    + reflexivity.
    + discriminate.
    + exact A.
  - vm_compute. discriminate.
Defined.
